(** * ip_watcher_bot: a shallow embedding of the public-IP watcher

    The bot polls an HTTP service for the host's public address, keeps the
    last address seen in [last_ip.txt] and posts to a chat channel when the
    address differs from the stored one.

    Layout of this file:
    - [PyStr]: Python text as lists of code points, [str.strip], the newline
      translation of text-mode files, and [int] on text;
    - [Config]: the module-level configuration code (lines 22-35);
    - [Bot]: the world the tick acts on, an error/state monad for it,
      [fetch_public_ip], [load_last_ip], [save_last_ip], [ip_monitor] and the
      repeated invocation of [ip_monitor];
    - [Ready]: the [on_ready] handler (lines 119-124);
    - the theorems. *)

From Stdlib Require Import ZArith NArith List Ascii String DecimalString Lia.
From Stdlib Require Import ZifyBool.
From stdpp Require Import base tactics option list gmap strings.

Local Open Scope N_scope.

(* ===================================================================== *)
(** ** Python text *)
(* ===================================================================== *)

Module PyStr.

(** A Python [str] is a sequence of Unicode code points. *)
Definition char := N.
Definition str := list char.

(** ASCII literals of the source, as code points. *)
Definition of_string (s : string) : str :=
  map N_of_ascii (list_ascii_of_string s).

Definition LF : char := 10.
Definition CR : char := 13.

(** [str.isspace] on one character (Py_UNICODE_ISSPACE): the code points the
    interpreter treats as whitespace in [str.strip]. *)
Definition is_space (c : char) : bool :=
  ((9 <=? c) && (c <=? 13)) || ((28 <=? c) && (c <=? 32))
  || (c =? 0x85) || (c =? 0xA0) || (c =? 0x1680)
  || ((0x2000 <=? c) && (c <=? 0x200A))
  || (c =? 0x2028) || (c =? 0x2029) || (c =? 0x202F)
  || (c =? 0x205F) || (c =? 0x3000).

(** [s.lstrip()] *)
Fixpoint lstrip (s : str) : str :=
  match s with
  | [] => []
  | c :: s' => if is_space c then lstrip s' else s
  end.

(** [s.rstrip()] *)
Fixpoint rstrip (s : str) : str :=
  match s with
  | [] => []
  | c :: s' =>
      match rstrip s' with
      | [] => if is_space c then [] else [c]
      | r => c :: r
      end
  end.

(** [s.strip()] *)
Definition strip (s : str) : str := rstrip (lstrip s).

(** [os.linesep] is the one thing of the platform that text-mode files
    depend on. *)
Inductive Platform := Posix | Windows.

Definition linesep (p : Platform) : str :=
  match p with
  | Posix => [LF]
  | Windows => [CR; LF]
  end.

(** Writing through a file opened in text mode with the default
    [newline=None]: every ['\n'] becomes [os.linesep]. *)
Fixpoint write_newlines (p : Platform) (s : str) : str :=
  match s with
  | [] => []
  | c :: s' =>
      (if c =? LF then linesep p else [c]) ++ write_newlines p s'
  end.

(** Reading through a file opened in text mode with the default
    [newline=None] (universal newlines): ['\r\n'] and a lone ['\r'] are
    both returned as ['\n']. *)
Fixpoint universal_newlines (s : str) : str :=
  match s with
  | [] => []
  | c :: s' =>
      if c =? CR then
        LF :: match s' with
              | [] => []
              | d :: s'' =>
                  if d =? LF then universal_newlines s''
                  else universal_newlines s'
              end
      else c :: universal_newlines s'
  end.

(** *** [int(s)] on text

    The built-in is not part of the repository; it is modelled after the
    interpreter (PyLong_FromUnicodeObject and PyLong_FromString, base 10).
    Two pieces of interpreter data stay parameters: the table of decimal
    digits outside ASCII and the configured limit on the number of digits. *)
Section Int.

(** Py_UNICODE_TODECIMAL on a character outside ASCII. *)
Variable unicode_decimal : char -> option N.
(** [sys.get_int_max_str_digits()]; 0 switches the limit off. *)
Variable int_max_str_digits : N.

(** Py_ISSPACE: the whitespace PyLong_FromString skips. *)
Definition is_ascii_space (c : char) : bool :=
  ((9 <=? c) && (c <=? 13)) || (c =? 32).

Definition is_ascii_digit (c : char) : bool := (48 <=? c) && (c <=? 57).

(** Whitespace and decimal digits outside ASCII are mapped to their ASCII
    counterparts; any other character outside ASCII makes the text
    invalid. *)
Fixpoint to_ascii_decimal (s : str) : option str :=
  match s with
  | [] => Some []
  | c :: s' =>
      if c <? 128 then cons c <$> to_ascii_decimal s'
      else if is_space c then cons 32 <$> to_ascii_decimal s'
      else match unicode_decimal c with
           | Some d => cons (48 + d) <$> to_ascii_decimal s'
           | None => None
           end
  end.

Fixpoint skip_ascii_space (s : str) : str :=
  match s with
  | [] => []
  | c :: s' => if is_ascii_space c then skip_ascii_space s' else s
  end.

(** The run of digits, single underscores allowed between two digits.
    Returns the value, the number of digits and the rest of the text. *)
Fixpoint scan_digits (s : str) (prev_underscore : bool) (acc : Z) (digits : N)
  : option (Z * N * str) :=
  match s with
  | [] => if prev_underscore then None else Some (acc, digits, [])
  | c :: s' =>
      if is_ascii_digit c then
        scan_digits s' false (10 * acc + Z.of_N (c - 48))%Z (digits + 1)
      else if c =? 95 then
        if prev_underscore then None else scan_digits s' true acc digits
      else if prev_underscore then None else Some (acc, digits, s)
  end.

(** [int(s)]: [Some n] when the conversion succeeds, [None] when it raises
    [ValueError]. *)
Definition py_int (s : str) : option Z :=
  match to_ascii_decimal s with
  | None => None
  | Some a =>
      let a := skip_ascii_space a in
      let '(negative, a) :=
        match a with
        | 43 :: a' => (false, a')
        | 45 :: a' => (true, a')
        | _ => (false, a)
        end in
      match a with
      | 95 :: _ => None
      | _ =>
          match scan_digits a false 0%Z 0 with
          | None => None
          | Some (v, digits, rest) =>
              if digits =? 0 then None
              else if (640 <? digits) && (0 <? int_max_str_digits)
                      && (int_max_str_digits <? digits) then None
              else match skip_ascii_space rest with
                   | [] => Some (if negative then (- v)%Z else v)
                   | _ :: _ => None
                   end
          end
      end
  end.

End Int.

(** Text made of whitespace only (the empty text included). *)
Definition blank (s : str) : Prop := Forall (fun c => is_space c = true) s.

(** A digit table without entries: no digits outside ASCII. *)
Definition ascii_digits_only (c : char) : option N := None.

(** [str(n)] for an integer. *)
Definition str_of_Z (n : Z) : str :=
  of_string (NilZero.string_of_int (Z.to_int n)).

End PyStr.

Import PyStr.

(* ===================================================================== *)
(** ** Configuration (module level, lines 22-35) *)
(* ===================================================================== *)

Module Config.

(** What stops the module from loading. *)
Inductive StartupError :=
| RuntimeError (msg : str)   (* raised by the configuration code itself *)
| ValueError.                (* raised by [int] *)

Record t := {
  DISCORD_TOKEN : str;
  NOTIFY_CHANNEL_ID : Z;
  CHECK_INTERVAL : Z
}.

Section Load.

Variable unicode_decimal : char -> option N.
Variable int_max_str_digits : N.

(** The process environment once [load_dotenv()] has merged the [.env]
    file into it. *)
Definition getenv (env : gmap string str) (name : string) : option str :=
  env !! name.

(** Truth value of an [Optional[str]]: [None] and the empty text are
    false. *)
Definition truthy (o : option str) : bool :=
  match o with
  | Some (_ :: _) => true
  | _ => false
  end.

Definition load_config (env : gmap string str) : StartupError + t :=
  let token := getenv env "DISCORD_TOKEN" in
  if negb (truthy token) then
    inl (RuntimeError
           (of_string "DISCORD_TOKEN not set in environment or .env file"))
  else
    let channel_id_str := getenv env "NOTIFY_CHANNEL_ID" in
    if negb (truthy channel_id_str) then
      inl (RuntimeError (of_string "NOTIFY_CHANNEL_ID not set"))
    else
      match py_int unicode_decimal int_max_str_digits
              (default [] channel_id_str) with
      | None => inl ValueError
      | Some channel_id =>
          match py_int unicode_decimal int_max_str_digits
                  (default (of_string "300") (getenv env "CHECK_INTERVAL")) with
          | None => inl ValueError
          | Some interval =>
              inr {| DISCORD_TOKEN := default [] token;
                     NOTIFY_CHANNEL_ID := channel_id;
                     CHECK_INTERVAL := interval |}
          end
      end.

End Load.

(** A sample environment: the token and an empty NOTIFY_CHANNEL_ID, as a
    [.env] line [NOTIFY_CHANNEL_ID=] gives it. *)
Definition env_empty_channel : gmap string str :=
  <["DISCORD_TOKEN" := of_string "token"]>
    (<["NOTIFY_CHANNEL_ID" := []]> ∅).

(** A sample environment with a channel id that is no integer. *)
Definition env_bad_channel : gmap string str :=
  <["DISCORD_TOKEN" := of_string "token"]>
    (<["NOTIFY_CHANNEL_ID" := of_string "general"]> ∅).

End Config.

(* ===================================================================== *)
(** ** The bot *)
(* ===================================================================== *)

Module Bot.

(** *** The world of one tick *)

(** [logging] levels. *)
Inductive Level := DEBUG | INFO | WARNING | ERROR.

Definition level_no (l : Level) : N :=
  match l with
  | DEBUG => 10
  | INFO => 20
  | WARNING => 30
  | ERROR => 40
  end.

(** What a tick does to the outside, in the order it happens. *)
Inductive Event :=
| Logged (lvl : Level) (msg : str)       (* a record the logger emitted *)
| FileTruncated                          (* [open(STATE_FILE, "w")] returned *)
| FileWritten (text : str)               (* the write was flushed and closed *)
| SendCalled (msg : str) (delivered : bool). (* [channel.send(msg)] *)

(** The state file ([None]: there is no such file) and the history. *)
Record World := {
  state_file : option str;
  trace : list Event
}.

(** What [session.get], [raise_for_status] and [resp.text()] come to: the
    body; or an exception that [except Exception] catches (its text); or an
    exception that it does not catch, because it does not derive from
    [Exception]: [asyncio.CancelledError] when the task is cancelled at one
    of these awaits, [KeyboardInterrupt] on shutdown. *)
Inductive HttpResult :=
| HttpText (body : str)
| HttpFailed (exc : str)
| HttpInterrupted.

(** How the outside answers during one tick. *)
Record TickIO := {
  http : HttpResult;
  (** the state file can be opened and read *)
  read_ok : bool;
  (** [open(STATE_FILE, "w")] succeeds *)
  open_w_ok : bool;
  (** [None]: the write is flushed in full; [Some n]: it fails after [n]
      characters reached the file *)
  write_fault : option nat;
  (** [bot.get_channel] finds the channel *)
  channel_found : bool;
  (** [channel.send] delivers the message *)
  send_ok : bool
}.

(** The exceptions that can leave a call, by the call they come from. *)
Inductive Exn :=
| Interrupted         (* the request of [fetch_public_ip], uncaught *)
| StateReadError      (* reading [STATE_FILE] *)
| StateWriteError     (* opening or writing [STATE_FILE] *)
| ChannelSendError.   (* [channel.send], whatever it raised *)

Inductive Res (A : Type) :=
| Returned (a : A)
| Raised (e : Exn).
Arguments Returned {A} a.
Arguments Raised {A} e.

(** *** A monad for code that reads the outside's answers, changes the
    world and may raise *)

Definition M (A : Type) : Type := TickIO -> World -> Res A * World.

Definition ret {A} (a : A) : M A := fun _ w => (Returned a, w).

Definition bind {A B} (m : M A) (k : A -> M B) : M B :=
  fun io w =>
    match m io w with
    | (Returned a, w') => k a io w'
    | (Raised e, w') => (Raised e, w')
    end.

Definition raise {A} (e : Exn) : M A := fun _ w => (Raised e, w).

Definition ask : M TickIO := fun io w => (Returned io, w).

Definition read_file : M (option str) := fun _ w => (Returned (state_file w), w).

Definition set_file (content : str) : M unit :=
  fun _ w => (Returned tt, {| state_file := Some content; trace := trace w |}).

Definition emit (e : Event) : M unit :=
  fun _ w =>
    (Returned tt, {| state_file := state_file w; trace := trace w ++ [e] |}).

Declare Scope bot_scope.
Delimit Scope bot_scope with bot.
Notation "'let*' x := m 'in' k" := (bind m (fun x => k))
  (at level 10, x name, m at level 100, k at level 200) : bot_scope.
Notation "m >> k" := (bind m (fun _ => k))
  (at level 100, k at level 200, right associativity) : bot_scope.
Local Open Scope bot_scope.

(** *** Logging (lines 40-45): the root logger is set to INFO, so records
    below INFO are dropped. *)
Definition log (lvl : Level) (msg : str) : M unit :=
  if level_no INFO <=? level_no lvl then emit (Logged lvl msg) else ret tt.

(** *** Fetching the public address (lines 52-61) *)

(** An [Exception] of the request is logged and turned into [None];
    otherwise the body is stripped.  What [except Exception] does not catch
    leaves the function. *)
Definition fetch_public_ip : M (option str) :=
  let* io := ask in
  match http io with
  | HttpText body => ret (Some (strip body))
  | HttpFailed exc =>
      log WARNING (of_string "Failed to fetch public IP: " ++ exc) >>
      ret None
  | HttpInterrupted => raise Interrupted
  end.

(** *** State persistence (lines 75-85) *)

Section Task.

Variable platform : Platform.

(** [f.read().strip() or None] when [STATE_FILE] is a file, else [None]. *)
Definition load_last_ip : M (option str) :=
  let* file := read_file in
  match file with
  | Some content =>
      let* io := ask in
      if read_ok io then
        match strip (universal_newlines content) with
        | [] => ret None
        | ip => ret (Some ip)
        end
      else raise StateReadError
  | None => ret None
  end.

(** [open(STATE_FILE, "w")]: the file is created or cut to length 0. *)
Definition open_w : M unit :=
  let* io := ask in
  if open_w_ok io then set_file [] >> emit FileTruncated
  else raise StateWriteError.

(** [f.write(text)] and the flush on leaving the [with] block. *)
Definition write_and_close (text : str) : M unit :=
  let* io := ask in
  let data := write_newlines platform text in
  match write_fault io with
  | None => set_file data >> emit (FileWritten data)
  | Some n => set_file (take n data) >> raise StateWriteError
  end.

Definition save_last_ip (ip : str) : M unit :=
  open_w >> write_and_close ip.

(** *** The monitor task (lines 91-114) *)

Variable NOTIFY_CHANNEL_ID : Z.

(** [bot.get_channel(NOTIFY_CHANNEL_ID)], as the truth value tested by
    [if channel:]. *)
Definition get_channel : M bool :=
  let* io := ask in ret (channel_found io).

Definition channel_send (msg : str) : M unit :=
  let* io := ask in
  emit (SendCalled msg (send_ok io)) >>
  if send_ok io then ret tt else raise ChannelSendError.

(** The two f-strings of lines 106 and 108. *)
Definition started_msg (current_ip : str) : str :=
  [0x1F7E2] ++ of_string " Bot started " ++ [0x2013]
  ++ of_string " current public IP is **" ++ current_ip ++ of_string "**.".

Definition changed_msg (last_ip current_ip : str) : str :=
  [0x26A0; 0xFE0F] ++ of_string " Public IP **changed** from `" ++ last_ip
  ++ of_string "` to **" ++ current_ip ++ of_string "**.".

Definition ip_monitor : M unit :=
  let* current_ip := fetch_public_ip in
  match current_ip with
  | None => ret tt
  | Some current_ip =>
      let* last_ip := load_last_ip in
      if bool_decide (last_ip <> Some current_ip) then
        save_last_ip current_ip >>
        let* channel := get_channel in
        if channel then
          let msg :=
            match last_ip with
            | None => started_msg current_ip
            | Some last_ip => changed_msg last_ip current_ip
            end in
          channel_send msg >>
          log INFO msg
        else
          log ERROR (of_string "Could not find channel with ID "
                     ++ str_of_Z NOTIFY_CHANNEL_ID)
      else
        log DEBUG (of_string "IP unchanged.")
  end.

(** *** The loop

    [tasks.loop] calls [ip_monitor] again and again; the scheduler itself
    belongs to the framework.  A run is the list of answers the outside
    gives, one per call; each call starts in the world the previous one
    left, whatever its result was. *)
Fixpoint run (ios : list TickIO) (w : World) : list (Res unit) * World :=
  match ios with
  | [] => ([], w)
  | io :: ios' =>
      let '(r, w') := ip_monitor io w in
      let '(rs, w'') := run ios' w' in
      (r :: rs, w'')
  end.

End Task.

(** *** Reading a history *)

(** The messages that were delivered. *)
Definition notifications (tr : list Event) : list str :=
  omap (fun e => match e with
                 | SendCalled msg true => Some msg
                 | _ => None
                 end) tr.

(** The messages handed to [channel.send], delivered or not. *)
Definition send_calls (tr : list Event) : list str :=
  omap (fun e => match e with
                 | SendCalled msg _ => Some msg
                 | _ => None
                 end) tr.

(** The log records. *)
Definition log_records (tr : list Event) : list (Level * str) :=
  omap (fun e => match e with
                 | Logged lvl msg => Some (lvl, msg)
                 | _ => None
                 end) tr.

(** The text of the last save that completed. *)
Definition last_written (tr : list Event) : option str :=
  last (omap (fun e => match e with
                       | FileWritten text => Some text
                       | _ => None
                       end) tr).

(** The message [ip_monitor] builds for a detected change (lines 105-108). *)
Definition change_msg (prev : option str) (cur : str) : str :=
  match prev with
  | None => started_msg cur
  | Some last => changed_msg last cur
  end.

(** [x] occurs in [msg]. *)
Definition mentions (msg x : str) : Prop :=
  exists l r, msg = l ++ x ++ r.

(** The file holds what the last completed save among the events [tr]
    wrote, or what it held before them when none of them completed. *)
Definition holds_last_save (before : option str) (tr : list Event)
    (file : option str) : Prop :=
  file = match last_written tr with
         | Some text => Some text
         | None => before
         end.

(** The tick fetches the address [cur], or fetches nothing. *)
Definition fetches_at_most (cur : str) (io : TickIO) : Prop :=
  match http io with
  | HttpText body => strip body = cur
  | HttpFailed _ => True
  | HttpInterrupted => True
  end.

(** The texts of the saves that completed, oldest first. *)
Definition completed_saves (tr : list Event) : list str :=
  omap (fun e => match e with
                 | FileWritten text => Some text
                 | _ => None
                 end) tr.

(** The messages of the INFO records. *)
Definition info_messages (tr : list Event) : list str :=
  omap (fun e => match e with
                 | Logged INFO msg => Some msg
                 | _ => None
                 end) tr.

(** At every moment of the history [tr], no more sends were called than
    saves had completed. *)
Definition sends_backed_by_saves (tr : list Event) : Prop :=
  forall pre, pre `prefix_of` tr ->
    (length (send_calls pre) <= length (completed_saves pre))%nat.

(** *** Sample worlds and answers *)

Definition ip_old : str := of_string "1.2.3.4".
Definition ip_new : str := of_string "5.6.7.8".

(** No state file, nothing has happened. *)
Definition fresh : World := {| state_file := None; trace := [] |}.

(** The state file holds [content]. *)
Definition holding (content : str) : World :=
  {| state_file := Some content; trace := [] |}.

(** The service answers [body] and everything else works. *)
Definition all_fine (body : str) : TickIO :=
  {| http := HttpText body; read_ok := true; open_w_ok := true;
     write_fault := None; channel_found := true; send_ok := true |}.

Definition open_fails (io : TickIO) : TickIO :=
  {| http := http io; read_ok := read_ok io; open_w_ok := false;
     write_fault := write_fault io; channel_found := channel_found io;
     send_ok := send_ok io |}.

Definition write_fails (n : nat) (io : TickIO) : TickIO :=
  {| http := http io; read_ok := read_ok io; open_w_ok := open_w_ok io;
     write_fault := Some n; channel_found := channel_found io;
     send_ok := send_ok io |}.

Definition no_channel (io : TickIO) : TickIO :=
  {| http := http io; read_ok := read_ok io; open_w_ok := open_w_ok io;
     write_fault := write_fault io; channel_found := false;
     send_ok := send_ok io |}.

Definition send_fails (io : TickIO) : TickIO :=
  {| http := http io; read_ok := read_ok io; open_w_ok := open_w_ok io;
     write_fault := write_fault io; channel_found := channel_found io;
     send_ok := false |}.

Definition fetch_interrupted (io : TickIO) : TickIO :=
  {| http := HttpInterrupted; read_ok := read_ok io;
     open_w_ok := open_w_ok io; write_fault := write_fault io;
     channel_found := channel_found io; send_ok := send_ok io |}.

Definition fetch_fails (exc : str) (io : TickIO) : TickIO :=
  {| http := HttpFailed exc; read_ok := read_ok io; open_w_ok := open_w_ok io;
     write_fault := write_fault io; channel_found := channel_found io;
     send_ok := send_ok io |}.

End Bot.

(* ===================================================================== *)
(** ** The ready event (lines 119-124) *)
(* ===================================================================== *)

Module Ready.

Import Bot.

(** The client as [on_ready] sees it. *)
Record Client := {
  (** [str(bot.user)] *)
  user : str;
  (** [bot.user.id] *)
  user_id : Z;
  (** [ip_monitor.is_running()] *)
  monitor_running : bool;
  (** how many times [ip_monitor.start()] has launched the task *)
  monitor_starts : nat;
  (** the log records, oldest first *)
  records : list (Level * str)
}.

(** [log.info] and its like on the client's log; records below INFO are
    dropped, as in [Bot.log]. *)
Definition log_record (lvl : Level) (msg : str) (c : Client) : Client :=
  if (level_no INFO <=? level_no lvl)%N then
    {| user := user c; user_id := user_id c;
       monitor_running := monitor_running c;
       monitor_starts := monitor_starts c;
       records := records c ++ [(lvl, msg)] |}
  else c.

(** [ip_monitor.start()] of the framework: it launches the task, and
    raises RuntimeError ([None]) when the task is already running. *)
Definition start (c : Client) : option Client :=
  if monitor_running c then None
  else Some {| user := user c; user_id := user_id c;
               monitor_running := true;
               monitor_starts := S (monitor_starts c);
               records := records c |}.

(** [None]: an exception left the handler. *)
Definition on_ready (c : Client) : option Client :=
  let c :=
    log_record INFO
      (of_string "Logged in as " ++ user c ++ of_string " (ID: "
       ++ str_of_Z (user_id c) ++ of_string ")") c in
  match (if negb (monitor_running c) then start c else Some c) with
  | Some c => Some (log_record INFO (of_string "IP monitor task started.") c)
  | None => None
  end.

(** The gateway fires the ready event [n] times (first connection and
    reconnections). *)
Fixpoint ready_events (n : nat) (c : Client) : option Client :=
  match n with
  | O => Some c
  | S n' =>
      match on_ready c with
      | Some c' => ready_events n' c'
      | None => None
      end
  end.

(** A client that has just logged in. *)
Definition logged_in : Client :=
  {| user := of_string "ipbot#0001"; user_id := 42;
     monitor_running := false; monitor_starts := 0; records := [] |}.

End Ready.


Import Bot.
Local Open Scope bot_scope.

(* ===================================================================== *)
(** ** Facts about text *)
(* ===================================================================== *)

Section TextFacts.

Example strip_sample :
  strip ([0x2003] ++ of_string " 1.2.3.4 " ++ [CR; LF]) = of_string "1.2.3.4".
Proof. reflexivity. Qed.

Example strip_blank : strip (of_string "   ") = [].
Proof. reflexivity. Qed.

Example universal_newlines_sample :
  universal_newlines ([97; CR; LF; 98; CR; 99; LF]) = [97; LF; 98; LF; 99; LF].
Proof. reflexivity. Qed.

Example int_samples :
  map (py_int ascii_digits_only 4300)
    [of_string " 42 "; of_string "-7"; of_string "1_000"; of_string "007";
     of_string ""; of_string "1__0"; of_string "12a"; of_string "+"]
  = [Some 42%Z; Some (-7)%Z; Some 1000%Z; Some 7%Z; None; None; None; None].
Proof. reflexivity. Qed.

Lemma lstrip_head_not_space c s :
  is_space c = false -> lstrip (c :: s) = c :: s.
Proof. intros H. simpl. now rewrite H. Qed.

Lemma rstrip_head_not_space c s :
  is_space c = false -> rstrip (c :: s) = c :: rstrip s.
Proof.
  intros H. simpl. destruct (rstrip s); [now rewrite H | reflexivity].
Qed.

Lemma rstrip_idem s : rstrip (rstrip s) = rstrip s.
Proof.
  induction s as [|c s IH]; [reflexivity|].
  simpl. destruct (rstrip s) as [|d r] eqn:E.
  - destruct (is_space c) eqn:Hc; [reflexivity|].
    simpl. now rewrite Hc.
  - change (rstrip (c :: d :: r)) with
      (match rstrip (d :: r) with
       | [] => if is_space c then [] else [c]
       | r' => c :: r'
       end).
    now rewrite IH.
Qed.

(** What [lstrip] returns starts with a character that is no space. *)
Lemma lstrip_shape s :
  lstrip s = [] \/ exists c t, lstrip s = c :: t /\ is_space c = false.
Proof.
  induction s as [|c s IH]; [now left|].
  simpl. destruct (is_space c) eqn:Hc; [exact IH|].
  right. now exists c, s.
Qed.

Lemma strip_idem s : strip (strip s) = strip s.
Proof.
  unfold strip. destruct (lstrip_shape s) as [-> | (c & t & -> & Hc)].
  - reflexivity.
  - rewrite (rstrip_head_not_space c t Hc).
    rewrite (lstrip_head_not_space c _ Hc).
    rewrite <- (rstrip_head_not_space c t Hc).
    apply rstrip_idem.
Qed.

Lemma universal_newlines_no_cr s :
  CR ∉ s -> universal_newlines s = s.
Proof.
  induction s as [|c s IH]; [reflexivity|].
  intros H. apply not_elem_of_cons in H as [Hc Hs].
  simpl. destruct (N.eqb_spec c CR) as [->|_]; [congruence|].
  now rewrite IH.
Qed.

(** Text without carriage returns comes back from a text-mode file as it
    was written, on either platform. *)
Lemma read_back_written p s :
  CR ∉ s -> universal_newlines (write_newlines p s) = s.
Proof.
  induction s as [|c s IH]; [reflexivity|].
  intros H. apply not_elem_of_cons in H as [Hc Hs].
  specialize (IH Hs). simpl.
  destruct (N.eqb_spec c LF) as [->|Hlf].
  - destruct p; simpl.
    + now rewrite IH.
    + now rewrite IH.
  - simpl. destruct (N.eqb_spec c CR) as [->|_]; [congruence|].
    now rewrite IH.
Qed.

(** What [load_last_ip] makes of the text a completed save wrote. *)
Lemma strip_read_back p v :
  strip v = v -> CR ∉ v ->
  strip (universal_newlines (write_newlines p v)) = v.
Proof. intros Hs Hcr. now rewrite read_back_written. Qed.

End TextFacts.

(* ===================================================================== *)
(** ** One tick, branch by branch *)
(* ===================================================================== *)

Section TickFacts.

Variable p : Platform.
Variable cid : Z.

Lemma load_last_ip_world io w : snd (load_last_ip io w) = w.
Proof.
  unfold load_last_ip, bind, read_file, ask, ret, raise. simpl.
  destruct (state_file w); [|reflexivity].
  destruct (read_ok io); [|reflexivity].
  now destruct (strip _).
Qed.

Lemma load_last_ip_eq io w r :
  fst (load_last_ip io w) = r -> load_last_ip io w = (r, w).
Proof.
  intros <-. rewrite <- (load_last_ip_world io w) at 3.
  now destruct (load_last_ip io w).
Qed.

(** What [load_last_ip] returns when the file holds [content]. *)
Lemma load_last_ip_file io w content :
  state_file w = Some content -> read_ok io = true ->
  load_last_ip io w =
  (Returned (match strip (universal_newlines content) with
             | [] => None
             | ip => Some ip
             end), w).
Proof.
  intros Hf Hr.
  unfold load_last_ip, bind, read_file, ask, ret. simpl.
  rewrite Hf, Hr. now destruct (strip _).
Qed.

Lemma load_last_ip_unreadable io w content :
  state_file w = Some content -> read_ok io = false ->
  load_last_ip io w = (Raised StateReadError, w).
Proof.
  intros Hf Hr.
  unfold load_last_ip, bind, read_file, ask, raise. simpl.
  now rewrite Hf, Hr.
Qed.

Lemma load_last_ip_no_file io w :
  state_file w = None -> load_last_ip io w = (Returned None, w).
Proof.
  intros Hf. unfold load_last_ip, bind, read_file, ret. simpl.
  now rewrite Hf.
Qed.

(** [load_last_ip] raises nothing but the read error. *)
Lemma load_last_ip_raises io w e :
  fst (load_last_ip io w) = Raised e ->
  e = StateReadError /\ read_ok io = false /\ is_Some (state_file w).
Proof.
  unfold load_last_ip, bind, read_file, ask, ret, raise. simpl.
  destruct (state_file w) as [c|] eqn:Hf; [|discriminate].
  destruct (read_ok io); [now destruct (strip _)|].
  simpl. intros [= <-]. eauto.
Qed.

Lemma save_last_ip_eq ip io w :
  save_last_ip p ip io w =
  if open_w_ok io then
    match write_fault io with
    | None =>
        (Returned tt,
         {| state_file := Some (write_newlines p ip);
            trace := (trace w ++ [FileTruncated])
                     ++ [FileWritten (write_newlines p ip)] |})
    | Some n =>
        (Raised StateWriteError,
         {| state_file := Some (take n (write_newlines p ip));
            trace := trace w ++ [FileTruncated] |})
    end
  else (Raised StateWriteError, w).
Proof.
  unfold save_last_ip, open_w, write_and_close, bind, ask, set_file, emit,
    raise. simpl.
  destruct (open_w_ok io); [|reflexivity]. simpl.
  now destruct (write_fault io).
Qed.

Lemma ip_monitor_fetch_failed io w exc :
  http io = HttpFailed exc ->
  ip_monitor p cid io w =
  (Returned tt,
   {| state_file := state_file w;
      trace := trace w ++ [Logged WARNING
                 (of_string "Failed to fetch public IP: " ++ exc)] |}).
Proof.
  intros H. unfold ip_monitor, fetch_public_ip, bind, ask. simpl.
  now rewrite H.
Qed.

Lemma ip_monitor_interrupted io w :
  http io = HttpInterrupted ->
  ip_monitor p cid io w = (Raised Interrupted, w).
Proof.
  intros H. unfold ip_monitor, fetch_public_ip, bind, ask, raise. simpl.
  now rewrite H.
Qed.

Lemma ip_monitor_fetched io w body :
  http io = HttpText body ->
  ip_monitor p cid io w =
  match load_last_ip io w with
  | (Returned last_ip, w1) =>
      if bool_decide (last_ip <> Some (strip body)) then
        match save_last_ip p (strip body) io w1 with
        | (Returned _, w2) =>
            if channel_found io then
              (if send_ok io then Returned tt else Raised ChannelSendError,
               {| state_file := state_file w2;
                  trace :=
                    (trace w2
                     ++ [SendCalled (change_msg last_ip (strip body))
                           (send_ok io)])
                    ++ (if send_ok io
                        then [Logged INFO (change_msg last_ip (strip body))]
                        else []) |})
            else
              (Returned tt,
               {| state_file := state_file w2;
                  trace := trace w2
                           ++ [Logged ERROR
                                 (of_string "Could not find channel with ID "
                                  ++ str_of_Z cid)] |})
        | (Raised e, w2) => (Raised e, w2)
        end
      else (Returned tt, w1)
  | (Raised e, w1) => (Raised e, w1)
  end.
Proof.
  intros H. unfold ip_monitor at 1, fetch_public_ip at 1.
  unfold bind at 1 2. unfold ask at 1. rewrite H.
  unfold ret at 1. unfold bind at 1.
  destruct (load_last_ip io w) as [[last_ip|e] w1]; [|reflexivity].
  case_bool_decide; [|reflexivity].
  unfold bind at 1.
  destruct (save_last_ip p (strip body) io w1) as [[[]|e] w2]; [|reflexivity].
  unfold bind at 1, get_channel at 1, bind at 1, ask at 1, ret at 1.
  destruct (channel_found io); [|reflexivity].
  unfold channel_send, bind, ask, emit, log, ret, raise, change_msg. simpl.
  destruct (send_ok io); simpl.
  - destruct w2; reflexivity.
  - rewrite app_nil_r. reflexivity.
Qed.

End TickFacts.

(* ===================================================================== *)
(** ** Histories *)
(* ===================================================================== *)

Section TraceFacts.

Lemma send_calls_app tr1 tr2 :
  send_calls (tr1 ++ tr2) = send_calls tr1 ++ send_calls tr2.
Proof. apply omap_app. Qed.

Lemma notifications_app tr1 tr2 :
  notifications (tr1 ++ tr2) = notifications tr1 ++ notifications tr2.
Proof. apply omap_app. Qed.

Lemma log_records_app tr1 tr2 :
  log_records (tr1 ++ tr2) = log_records tr1 ++ log_records tr2.
Proof. apply omap_app. Qed.

Lemma last_written_snoc tr e :
  last_written (tr ++ [e]) =
  match e with
  | FileWritten text => Some text
  | _ => last_written tr
  end.
Proof.
  unfold last_written. rewrite omap_app.
  destruct e; simpl; rewrite ?app_nil_r; try reflexivity.
  apply last_snoc.
Qed.

Lemma mentions_intro l x r : mentions (l ++ x ++ r) x.
Proof. now exists l, r. Qed.

End TraceFacts.

(** Splits a goal about [ip_monitor p cid io w] into the ways a tick can
    go, with the tick's result written out in each; [body] and [prev] name
    the fetched body and the stored address. *)
Ltac tick_cases p cid io w body prev :=
  let exc := fresh "exc" in
  let Hh := fresh "Hh" in
  destruct (http io) as [body|exc|] eqn:Hh;
  [ rewrite (ip_monitor_fetched p cid io w body Hh);
    rewrite (load_last_ip_eq io w _ eq_refl);
    let e := fresh "e" in
    let Hl := fresh "Hl" in
    destruct (fst (load_last_ip io w)) as [prev|e] eqn:Hl;
    [ let Hd := fresh "Hd" in
      case_bool_decide as Hd;
      [ rewrite save_last_ip_eq;
        let Ho := fresh "Ho" in
        destruct (open_w_ok io) eqn:Ho;
        [ let n := fresh "n" in
          let Hw := fresh "Hw" in
          destruct (write_fault io) as [n|] eqn:Hw;
          [ | let Hc := fresh "Hc" in
              destruct (channel_found io) eqn:Hc;
              [ let Hs := fresh "Hs" in destruct (send_ok io) eqn:Hs | ] ]
        | ]
      | ]
    | ]
  | rewrite (ip_monitor_fetch_failed p cid io w exc Hh)
  | rewrite (ip_monitor_interrupted p cid io w Hh) ];
  cbn [fst snd state_file trace].

(** The two shapes of a case of [tick_result]'s first part. *)
Ltac tick_returns body prev :=
  solve [ split; [intros _; right; exists body, prev; eauto 8 | reflexivity]
        | split; [intros _; left; eauto | reflexivity] ].

Ltac tick_not_returned :=
  solve [ split;
          [ discriminate
          | intros [[? ?]|(? & ? & ? & ? & [?|(? & ? & [?|?])])];
            congruence ] ].

(* ===================================================================== *)
(** ** The tick's decision *)
(* ===================================================================== *)

Section Decision.

Variable p : Platform.
Variable cid : Z.

(** C6: when the address just fetched equals the stored one, the tick
    takes no action: it returns with the world exactly as it found it, so
    the state file is not touched and nothing is sent. *)
Theorem unchanged_address_no_action io w body :
  http io = HttpText body ->
  fst (load_last_ip io w) = Returned (Some (strip body)) ->
  ip_monitor p cid io w = (Returned tt, w).
Proof.
  intros Hh Hl. rewrite (ip_monitor_fetched p cid io w body Hh).
  rewrite (load_last_ip_eq io w _ Hl).
  case_bool_decide; [congruence | reflexivity].
Qed.

(** The tick of a detected change whose save completes. *)
Lemma ip_monitor_saved io w body prev :
  http io = HttpText body ->
  fst (load_last_ip io w) = Returned prev ->
  prev <> Some (strip body) ->
  open_w_ok io = true -> write_fault io = None ->
  ip_monitor p cid io w =
  let data := write_newlines p (strip body) in
  let saved := (trace w ++ [FileTruncated]) ++ [FileWritten data] in
  if channel_found io then
    (if send_ok io then Returned tt else Raised ChannelSendError,
     {| state_file := Some data;
        trace := (saved ++ [SendCalled (change_msg prev (strip body))
                              (send_ok io)])
                 ++ (if send_ok io
                     then [Logged INFO (change_msg prev (strip body))]
                     else []) |})
  else
    (Returned tt,
     {| state_file := Some data;
        trace := saved ++ [Logged ERROR
                             (of_string "Could not find channel with ID "
                              ++ str_of_Z cid)] |}).
Proof.
  intros Hh Hl Hne Ho Hw. rewrite (ip_monitor_fetched p cid io w body Hh).
  rewrite (load_last_ip_eq io w _ Hl).
  rewrite bool_decide_eq_true_2 by exact Hne.
  rewrite save_last_ip_eq, Ho, Hw. reflexivity.
Qed.

(** The tick of a detected change whose save fails. *)
Lemma ip_monitor_save_failed io w body prev :
  http io = HttpText body ->
  fst (load_last_ip io w) = Returned prev ->
  prev <> Some (strip body) ->
  open_w_ok io = false \/ is_Some (write_fault io) ->
  fst (ip_monitor p cid io w) = Raised StateWriteError
  /\ trace (snd (ip_monitor p cid io w))
     = trace w ++ (if open_w_ok io then [FileTruncated] else []).
Proof.
  intros Hh Hl Hne Hf. rewrite (ip_monitor_fetched p cid io w body Hh).
  rewrite (load_last_ip_eq io w _ Hl).
  rewrite bool_decide_eq_true_2 by exact Hne.
  rewrite save_last_ip_eq.
  destruct (open_w_ok io); simpl.
  - destruct Hf as [Hf | [n Hf]]; [discriminate|]. now rewrite Hf.
  - now rewrite app_nil_r.
Qed.

(** C7: for every fetched address, when nothing is stored the message of
    the tick is the start-up message, which contains the address; when
    another address is stored the message is the change message, which
    contains the stored and the fetched address. *)
Theorem change_decision_message io w body prev :
  http io = HttpText body ->
  fst (load_last_ip io w) = Returned prev ->
  prev <> Some (strip body) ->
  open_w_ok io = true -> write_fault io = None ->
  channel_found io = true ->
  let cur := strip body in
  let w' := snd (ip_monitor p cid io w) in
  match prev with
  | None =>
      send_calls (trace w') = send_calls (trace w) ++ [started_msg cur]
      /\ mentions (started_msg cur) cur
  | Some last =>
      send_calls (trace w') = send_calls (trace w) ++ [changed_msg last cur]
      /\ mentions (changed_msg last cur) last
      /\ mentions (changed_msg last cur) cur
  end.
Proof.
  intros Hh Hl Hne Ho Hw Hc cur w'. subst w'.
  rewrite (ip_monitor_saved io w body prev Hh Hl Hne Ho Hw), Hc.
  cbn [snd trace].
  assert (Hsend : forall msg,
    send_calls ((((trace w ++ [FileTruncated])
                  ++ [FileWritten (write_newlines p (strip body))])
                 ++ [SendCalled msg (send_ok io)])
                ++ (if send_ok io then [Logged INFO msg] else []))
    = send_calls (trace w) ++ [msg]).
  { intros msg. rewrite !send_calls_app. simpl.
    destruct (send_ok io); simpl; now rewrite !app_nil_r. }
  rewrite Hsend. destruct prev as [last|]; simpl.
  - split; [reflexivity|]. unfold changed_msg. split.
    + rewrite app_assoc. apply mentions_intro.
    + rewrite !app_assoc. rewrite <- (app_assoc _ (strip body)).
      apply mentions_intro.
  - split; [reflexivity|]. unfold started_msg.
    rewrite !app_assoc. rewrite <- (app_assoc _ (strip body)).
    apply mentions_intro.
Qed.

(** C1, as the code has it: on a detected change the state file is
    written before [channel.send] is called; a save that fails leaves the
    tick as an exception, with nothing sent and nothing logged; a send
    that fails leaves the saved address in the file. *)
Theorem save_precedes_notification io w body prev :
  http io = HttpText body ->
  fst (load_last_ip io w) = Returned prev ->
  prev <> Some (strip body) ->
  let data := write_newlines p (strip body) in
  let r := fst (ip_monitor p cid io w) in
  let w' := snd (ip_monitor p cid io w) in
  (open_w_ok io = false \/ is_Some (write_fault io) ->
   r = Raised StateWriteError
   /\ send_calls (trace w') = send_calls (trace w)
   /\ log_records (trace w') = log_records (trace w))
  /\ (open_w_ok io = true -> write_fault io = None ->
      state_file w' = Some data
      /\ (exists after,
           trace w' = trace w ++ [FileTruncated; FileWritten data] ++ after
           /\ send_calls after
              = if channel_found io then [change_msg prev (strip body)]
                else [])
      /\ (channel_found io = true -> send_ok io = false ->
          r = Raised ChannelSendError)).
Proof.
  intros Hh Hl Hne data r w'. subst data r w'. split.
  - intros Hf.
    destruct (ip_monitor_save_failed io w body prev Hh Hl Hne Hf) as [Hr Ht].
    rewrite Hr, Ht, send_calls_app, log_records_app.
    destruct (open_w_ok io); simpl; now rewrite !app_nil_r.
  - intros Ho Hw.
    rewrite (ip_monitor_saved io w body prev Hh Hl Hne Ho Hw).
    destruct (channel_found io); cbn [fst snd state_file trace].
    + split; [reflexivity|]. split.
      * eexists. rewrite <- !app_assoc. split; [reflexivity|].
        rewrite send_calls_app. simpl. now destruct (send_ok io).
      * intros _ ->. reflexivity.
    + split; [reflexivity|]. split.
      * eexists. rewrite <- !app_assoc. split; reflexivity.
      * discriminate.
Qed.

(** C2, as the code has it: the tick returns normally exactly when the
    fetch fails with an [Exception], or the stored address is read and
    equals the fetched one, or it differs and the save completes and the
    channel is not found or the send succeeds.  The failed fetch is caught
    and logged as a warning, with the state file untouched; the channel
    that is not found is logged as an error.  Nothing else is caught: an
    exception that leaves the tick comes from a request interrupted by what
    [except Exception] lets through, from the read, from the save or from
    the send, and the tick logs nothing about it. *)
Theorem tick_result io w :
  (fst (ip_monitor p cid io w) = Returned tt <->
   (exists exc, http io = HttpFailed exc)
   \/ (exists body prev,
         http io = HttpText body
         /\ fst (load_last_ip io w) = Returned prev
         /\ (prev = Some (strip body)
             \/ (open_w_ok io = true /\ write_fault io = None
                 /\ (channel_found io = false \/ send_ok io = true)))))
  /\ (forall exc,
        http io = HttpFailed exc ->
        fst (ip_monitor p cid io w) = Returned tt
        /\ state_file (snd (ip_monitor p cid io w)) = state_file w
        /\ trace (snd (ip_monitor p cid io w))
           = trace w ++ [Logged WARNING
                           (of_string "Failed to fetch public IP: " ++ exc)])
  /\ (forall body prev,
        http io = HttpText body ->
        fst (load_last_ip io w) = Returned prev ->
        prev <> Some (strip body) ->
        open_w_ok io = true -> write_fault io = None ->
        channel_found io = false ->
        fst (ip_monitor p cid io w) = Returned tt
        /\ log_records (trace (snd (ip_monitor p cid io w)))
           = log_records (trace w)
             ++ [(ERROR, of_string "Could not find channel with ID "
                         ++ str_of_Z cid)])
  /\ (forall e, fst (ip_monitor p cid io w) = Raised e ->
        (e = Interrupted /\ http io = HttpInterrupted)
        \/ (e = StateReadError /\ read_ok io = false)
        \/ (e = StateWriteError
            /\ (open_w_ok io = false \/ is_Some (write_fault io)))
        \/ (e = ChannelSendError
            /\ channel_found io = true /\ send_ok io = false))
  /\ (forall e, fst (ip_monitor p cid io w) = Raised e ->
        log_records (trace (snd (ip_monitor p cid io w)))
        = log_records (trace w)).
Proof.
  split; [|split; [|split; [|split]]].
  - pose proof (load_last_ip_raises io w) as Hraise.
    tick_cases p cid io w body prev;
      first [tick_returns body prev | tick_not_returned].
  - intros exc Hh. now rewrite (ip_monitor_fetch_failed p cid io w exc Hh).
  - intros body prev Hh Hl Hne Ho Hw Hc.
    rewrite (ip_monitor_saved io w body prev Hh Hl Hne Ho Hw), Hc.
    cbn [fst snd trace]. split; [reflexivity|].
    rewrite !log_records_app. simpl. now rewrite !app_nil_r.
  - pose proof (load_last_ip_raises io w) as Hraise.
    tick_cases p cid io w body prev; try discriminate;
      try solve [intros ? [= <-]; eauto 8].
    intros ? [= <-]. destruct (Hraise e eq_refl) as (-> & Hr & _). eauto.
  - tick_cases p cid io w body prev; try discriminate; intros ? _;
      rewrite ?log_records_app; simpl; now rewrite ?app_nil_r.
Qed.

End Decision.

(* ===================================================================== *)
(** ** The state file *)
(* ===================================================================== *)

Section StateFile.

Variable p : Platform.

(** C3, as the code has it: a save rewrites the state file in place.
    When the file cannot be opened the world is as before; once it is
    opened the old content is gone: the file is empty until the write
    lands, holds exactly the written text when the save completes, and
    holds the part that reached it when the write fails.  A load of the
    emptied file reports no stored address. *)
Theorem save_rewrites_in_place ip io w :
  let data := write_newlines p ip in
  let r := fst (save_last_ip p ip io w) in
  let w' := snd (save_last_ip p ip io w) in
  (open_w_ok io = false -> r = Raised StateWriteError /\ w' = w)
  /\ (open_w_ok io = true ->
      state_file (snd (open_w io w)) = Some []
      /\ (forall io', read_ok io' = true ->
            fst (load_last_ip io' (snd (open_w io w))) = Returned None))
  /\ (open_w_ok io = true -> write_fault io = None ->
      r = Returned tt /\ state_file w' = Some data)
  /\ (forall n, open_w_ok io = true -> write_fault io = Some n ->
        r = Raised StateWriteError /\ state_file w' = Some (take n data)).
Proof.
  intros data r w'. subst data r w'. rewrite save_last_ip_eq.
  assert (Hopen : open_w_ok io = true ->
            snd (open_w io w)
            = {| state_file := Some []; trace := trace w ++ [FileTruncated] |}).
  { intros Ho. unfold open_w, bind, ask, set_file, emit. simpl.
    now rewrite Ho. }
  split; [|split; [|split]].
  - intros Ho. now rewrite Ho.
  - intros Ho. rewrite (Hopen Ho). split; [reflexivity|].
    intros io' Hr.
    now rewrite load_last_ip_file with (content := [])
      by first [reflexivity | exact Hr].
  - intros Ho Hw. now rewrite Ho, Hw.
  - intros n Ho Hw. now rewrite Ho, Hw.
Qed.

(** C8, as the code has it: a text that is not empty, has no whitespace
    at either end and no carriage return in it is returned unchanged by a
    load that follows its save. *)
Theorem save_then_load v io io' w :
  v <> [] -> strip v = v -> CR ∉ v ->
  open_w_ok io = true -> write_fault io = None -> read_ok io' = true ->
  fst (save_last_ip p v io w) = Returned tt
  /\ fst (load_last_ip io' (snd (save_last_ip p v io w)))
     = Returned (Some v).
Proof.
  intros Hne Hs Hcr Ho Hw Hr. rewrite save_last_ip_eq, Ho, Hw.
  split; [reflexivity|].
  rewrite load_last_ip_file with (content := write_newlines p v)
    by first [reflexivity | exact Hr].
  rewrite (strip_read_back p v Hs Hcr). now destruct v.
Qed.

End StateFile.

(* ===================================================================== *)
(** ** The loop *)
(* ===================================================================== *)

Section Loop.

Variable p : Platform.
Variable cid : Z.

Lemma run_cons io ios w :
  snd (run p cid (io :: ios) w)
  = snd (run p cid ios (snd (ip_monitor p cid io w))).
Proof.
  cbn [run]. destruct (ip_monitor p cid io w) as [r w1]. cbn [snd].
  now destruct (run p cid ios w1).
Qed.

Lemma last_written_app tr1 tr2 :
  last_written (tr1 ++ tr2)
  = match last_written tr2 with
    | Some text => Some text
    | None => last_written tr1
    end.
Proof. unfold last_written. rewrite omap_app. apply last_app. Qed.

Lemma holds_last_save_app before tr1 mid tr2 file :
  holds_last_save before tr1 mid ->
  holds_last_save mid tr2 file ->
  holds_last_save before (tr1 ++ tr2) file.
Proof.
  unfold holds_last_save. intros -> ->. rewrite last_written_app.
  now destruct (last_written tr2).
Qed.

(** One tick whose write, if any, is not cut short. *)
Lemma tick_holds_last_save io w :
  write_fault io = None ->
  exists tr,
    trace (snd (ip_monitor p cid io w)) = trace w ++ tr
    /\ holds_last_save (state_file w) tr
         (state_file (snd (ip_monitor p cid io w)))
    /\ (forall text, FileWritten text ∈ tr ->
          exists body, http io = HttpText body
                       /\ text = write_newlines p (strip body)).
Proof.
  intros Hw. destruct (http io) as [body|exc|] eqn:Hh.
  - rewrite (ip_monitor_fetched p cid io w body Hh).
    rewrite (load_last_ip_eq io w _ eq_refl).
    destruct (fst (load_last_ip io w)) as [last|e].
    + case_bool_decide.
      * rewrite save_last_ip_eq, Hw.
        destruct (open_w_ok io).
        -- set (data := write_newlines p (strip body)).
           assert (Hin : forall text tl,
             (forall e, e ∈ tl -> forall t, e <> FileWritten t) ->
             FileWritten text ∈ [FileTruncated; FileWritten data] ++ tl ->
             exists b, HttpText body = HttpText b
                       /\ text = write_newlines p (strip b)).
           { intros text tl Htl Hin. exists body. split; [reflexivity|].
             rewrite elem_of_app in Hin. destruct Hin as [Hin|Hin].
             - rewrite !elem_of_cons in Hin.
               destruct Hin as [Hin|[Hin|Hin]];
                 [discriminate | now injection Hin
                 | now apply elem_of_nil in Hin].
             - exfalso. exact (Htl _ Hin text eq_refl). }
           destruct (channel_found io); cbn [snd trace state_file].
           ++ eexists. rewrite <- !app_assoc. split; [reflexivity|].
              split.
              ** unfold holds_last_save. now destruct (send_ok io).
              ** intros text. apply Hin. intros e He t ->.
                 rewrite elem_of_app, list_elem_of_singleton in He.
                 destruct He as [He|He]; [discriminate|].
                 destruct (send_ok io);
                   [apply list_elem_of_singleton in He; discriminate
                   | now apply elem_of_nil in He].
           ++ eexists. rewrite <- !app_assoc. split; [reflexivity|].
              split; [reflexivity|].
              intros text. apply Hin. intros e He t ->.
              apply list_elem_of_singleton in He. discriminate.
        -- exists []. rewrite app_nil_r. repeat split.
           intros text Hin. now apply elem_of_nil in Hin.
      * exists []. rewrite app_nil_r. repeat split.
        intros text Hin. now apply elem_of_nil in Hin.
    + exists []. rewrite app_nil_r. repeat split.
      intros text Hin. now apply elem_of_nil in Hin.
  - rewrite (ip_monitor_fetch_failed p cid io w exc Hh).
    eexists. split; [reflexivity|]. split; [reflexivity|].
    intros text Hin. apply list_elem_of_singleton in Hin. discriminate.
  - rewrite (ip_monitor_interrupted p cid io w Hh).
    exists []. rewrite app_nil_r. repeat split.
    intros text Hin. now apply elem_of_nil in Hin.
Qed.

(** C4, as the code has it: a tick whose fetch fails leaves the state
    file as it is and calls no send; and over any run in which no write
    is cut short, the state file holds the text of the last completed
    save of the run (each such text being an address fetched in the run),
    or its initial content when no save completed. *)
Theorem persisted_state_invariant ios w :
  (forall io exc,
      http io = HttpFailed exc ->
      state_file (snd (ip_monitor p cid io w)) = state_file w
      /\ send_calls (trace (snd (ip_monitor p cid io w)))
         = send_calls (trace w))
  /\ (Forall (fun io => write_fault io = None) ios ->
      exists tr,
        trace (snd (run p cid ios w)) = trace w ++ tr
        /\ holds_last_save (state_file w) tr
             (state_file (snd (run p cid ios w)))
        /\ (forall text, FileWritten text ∈ tr ->
              exists io body, io ∈ ios /\ http io = HttpText body
                              /\ text = write_newlines p (strip body))).
Proof.
  split.
  - intros io exc Hh. rewrite (ip_monitor_fetch_failed p cid io w exc Hh).
    cbn [snd state_file trace]. split; [reflexivity|].
    rewrite send_calls_app. simpl. now rewrite app_nil_r.
  - revert w. induction ios as [|io ios IH]; intros w Hall.
    + exists []. simpl. rewrite app_nil_r. repeat split.
      intros text Hin. now apply elem_of_nil in Hin.
    + apply Forall_cons in Hall as [Hio Hall].
      rewrite run_cons.
      destruct (tick_holds_last_save io w Hio) as (tr1 & Ht1 & Hs1 & Hw1).
      destruct (IH (snd (ip_monitor p cid io w)) Hall)
        as (tr2 & Ht2 & Hs2 & Hw2).
      exists (tr1 ++ tr2). split; [|split].
      * now rewrite Ht2, Ht1, app_assoc.
      * exact (holds_last_save_app _ _ _ _ _ Hs1 Hs2).
      * intros text Hin. apply elem_of_app in Hin as [Hin|Hin].
        -- destruct (Hw1 text Hin) as (body & Hb & Ht).
           exists io, body. split; [apply list_elem_of_here | easy].
        -- destruct (Hw2 text Hin) as (io' & body & Hi & Hb & Ht).
           exists io', body. split; [now apply list_elem_of_further | easy].
Qed.

(** A tick that finds its own address in the state file (or fetches
    nothing) changes neither the file nor the list of send calls. *)
Lemma tick_settled cur io w :
  cur <> [] -> strip cur = cur -> CR ∉ cur ->
  state_file w = Some (write_newlines p cur) ->
  fetches_at_most cur io ->
  state_file (snd (ip_monitor p cid io w)) = state_file w
  /\ send_calls (trace (snd (ip_monitor p cid io w)))
     = send_calls (trace w)
  /\ notifications (trace (snd (ip_monitor p cid io w)))
     = notifications (trace w).
Proof.
  intros Hne Hs Hcr Hf Hio. unfold fetches_at_most in Hio.
  destruct (http io) as [body|exc|] eqn:Hh.
  - rewrite (ip_monitor_fetched p cid io w body Hh).
    destruct (read_ok io) eqn:Hr.
    + rewrite (load_last_ip_file io w _ Hf Hr).
      rewrite (strip_read_back p cur Hs Hcr), Hio.
      destruct cur as [|c cur']; [congruence|].
      rewrite bool_decide_eq_false_2 by (intros H; now apply H).
      easy.
    + rewrite (load_last_ip_unreadable io w _ Hf Hr). easy.
  - rewrite (ip_monitor_fetch_failed p cid io w exc Hh).
    cbn [snd state_file trace].
    rewrite send_calls_app, notifications_app. simpl.
    now rewrite !app_nil_r.
  - now rewrite (ip_monitor_interrupted p cid io w Hh).
Qed.

Lemma run_settled cur ios w :
  cur <> [] -> strip cur = cur -> CR ∉ cur ->
  state_file w = Some (write_newlines p cur) ->
  Forall (fetches_at_most cur) ios ->
  state_file (snd (run p cid ios w)) = state_file w
  /\ send_calls (trace (snd (run p cid ios w))) = send_calls (trace w)
  /\ notifications (trace (snd (run p cid ios w)))
     = notifications (trace w).
Proof.
  intros Hne Hs Hcr. revert w.
  induction ios as [|io ios IH]; intros w Hf Hall; [easy|].
  apply Forall_cons in Hall as [Hio Hall]. rewrite run_cons.
  destruct (tick_settled cur io w Hne Hs Hcr Hf Hio) as (Hf1 & Hc1 & Hn1).
  destruct (IH (snd (ip_monitor p cid io w))) as (Hf2 & Hc2 & Hn2);
    [congruence | exact Hall |].
  repeat split; congruence.
Qed.

(** C5, as the code has it: when a tick finds an address that is not the
    stored one, is not empty and has no carriage return in it, and saves
    and sends it, a second tick that fetches the same address delivers
    nothing: the two ticks deliver exactly one notification, the first
    tick's. *)
Theorem second_tick_silent io1 io2 w body1 body2 prev :
  let cur := strip body1 in
  cur <> [] -> CR ∉ cur ->
  http io1 = HttpText body1 ->
  http io2 = HttpText body2 -> strip body2 = cur ->
  fst (load_last_ip io1 w) = Returned prev -> prev <> Some cur ->
  open_w_ok io1 = true -> write_fault io1 = None ->
  channel_found io1 = true -> send_ok io1 = true ->
  let w1 := snd (ip_monitor p cid io1 w) in
  let w2 := snd (run p cid [io1; io2] w) in
  notifications (trace w1) = notifications (trace w) ++ [change_msg prev cur]
  /\ notifications (trace w2) = notifications (trace w1).
Proof.
  intros cur Hne Hcr Hh1 Hh2 Hb2 Hl Hp Ho Hw Hc Hs w1 w2.
  subst w2. rewrite run_cons. fold w1.
  assert (Hw1 : w1 = {| state_file := Some (write_newlines p cur);
                        trace := (((trace w ++ [FileTruncated])
                                   ++ [FileWritten (write_newlines p cur)])
                                  ++ [SendCalled (change_msg prev cur) true])
                                 ++ [Logged INFO (change_msg prev cur)] |}).
  { subst w1. rewrite (ip_monitor_saved p cid io1 w body1 prev Hh1 Hl Hp Ho Hw).
    cbv zeta. now rewrite Hc, Hs. }
  split.
  - rewrite Hw1. cbn [trace]. rewrite !notifications_app. simpl.
    now rewrite !app_nil_r.
  - apply (run_settled cur [io2] w1 Hne (strip_idem body1) Hcr).
    + now rewrite Hw1.
    + apply Forall_cons. split; [|apply Forall_nil_2].
      unfold fetches_at_most. now rewrite Hh2.
Qed.

(** C9, as the code has it: when a change to an address that is not empty
    and has no carriage return in it is detected and saved but the channel
    is not found, no send is called in that tick, and none in any later
    tick that fetches the same address or nothing, since the state file
    now holds that address. *)
Theorem unresolved_channel_never_notified io ios w body prev :
  let cur := strip body in
  cur <> [] -> CR ∉ cur ->
  http io = HttpText body ->
  fst (load_last_ip io w) = Returned prev -> prev <> Some cur ->
  open_w_ok io = true -> write_fault io = None ->
  channel_found io = false ->
  Forall (fetches_at_most cur) ios ->
  let w1 := snd (ip_monitor p cid io w) in
  state_file w1 = Some (write_newlines p cur)
  /\ send_calls (trace w1) = send_calls (trace w)
  /\ state_file (snd (run p cid ios w1)) = Some (write_newlines p cur)
  /\ send_calls (trace (snd (run p cid ios w1))) = send_calls (trace w).
Proof.
  intros cur Hne Hcr Hh Hl Hp Ho Hw Hc Hall w1.
  assert (Hw1 : w1 = {| state_file := Some (write_newlines p cur);
                        trace := ((trace w ++ [FileTruncated])
                                  ++ [FileWritten (write_newlines p cur)])
                                 ++ [Logged ERROR
                                       (of_string
                                          "Could not find channel with ID "
                                        ++ str_of_Z cid)] |}).
  { subst w1. rewrite (ip_monitor_saved p cid io w body prev Hh Hl Hp Ho Hw).
    cbv zeta. now rewrite Hc. }
  assert (Hf1 : state_file w1 = Some (write_newlines p cur))
    by now rewrite Hw1.
  assert (Hs1 : send_calls (trace w1) = send_calls (trace w)).
  { rewrite Hw1. cbn [trace]. rewrite !send_calls_app. simpl.
    now rewrite !app_nil_r. }
  destruct (run_settled cur ios w1 Hne (strip_idem body) Hcr Hf1 Hall)
    as (Hf2 & Hs2 & _).
  repeat split; congruence.
Qed.

End Loop.

(* ===================================================================== *)
(** ** Start-up *)
(* ===================================================================== *)

Section Startup.

Variable unicode_decimal : char -> option N.
Variable int_max_str_digits : N.

Lemma int_empty : py_int unicode_decimal int_max_str_digits [] = None.
Proof. reflexivity. Qed.

Lemma int_300 :
  py_int unicode_decimal int_max_str_digits (of_string "300") = Some 300%Z.
Proof. reflexivity. Qed.

Lemma truthy_nonempty (s : str) :
  s <> [] -> Config.truthy (Some s) = true.
Proof. now destruct s. Qed.

(** C10, as the code has it: with the token set, a NOTIFY_CHANNEL_ID that
    is set, not empty and not an integer stops start-up with the
    conversion error of [int], while an empty one is reported as not set;
    after a good NOTIFY_CHANNEL_ID, a CHECK_INTERVAL that is set and not an
    integer stops start-up with the conversion error too; and without
    CHECK_INTERVAL the interval is 300. *)
Theorem integer_settings env token :
  Config.getenv env "DISCORD_TOKEN" = Some token -> token <> [] ->
  (forall s,
      Config.getenv env "NOTIFY_CHANNEL_ID" = Some s -> s <> [] ->
      py_int unicode_decimal int_max_str_digits s = None ->
      Config.load_config unicode_decimal int_max_str_digits env
      = inl Config.ValueError)
  /\ (Config.getenv env "NOTIFY_CHANNEL_ID" = Some [] ->
      Config.load_config unicode_decimal int_max_str_digits env
      = inl (Config.RuntimeError (of_string "NOTIFY_CHANNEL_ID not set")))
  /\ (forall s id t,
        Config.getenv env "NOTIFY_CHANNEL_ID" = Some s ->
        py_int unicode_decimal int_max_str_digits s = Some id ->
        Config.getenv env "CHECK_INTERVAL" = Some t ->
        py_int unicode_decimal int_max_str_digits t = None ->
        Config.load_config unicode_decimal int_max_str_digits env
        = inl Config.ValueError)
  /\ (forall s id,
        Config.getenv env "NOTIFY_CHANNEL_ID" = Some s ->
        py_int unicode_decimal int_max_str_digits s = Some id ->
        Config.getenv env "CHECK_INTERVAL" = None ->
        Config.load_config unicode_decimal int_max_str_digits env
        = inr {| Config.DISCORD_TOKEN := token;
                 Config.NOTIFY_CHANNEL_ID := id;
                 Config.CHECK_INTERVAL := 300 |}).
Proof.
  intros Htok Hne.
  assert (Hnonempty : forall s id,
            py_int unicode_decimal int_max_str_digits s = Some id -> s <> []).
  { intros s id Hint ->. now rewrite int_empty in Hint. }
  split; [|split; [|split]].
  - intros s Hs Hsne Hint. unfold Config.load_config. cbv zeta.
    rewrite Htok, (truthy_nonempty token Hne), Hs, (truthy_nonempty s Hsne).
    cbn [negb]. change (default [] (Some s)) with s.
    now rewrite Hint.
  - intros Hs. unfold Config.load_config. cbv zeta.
    now rewrite Htok, (truthy_nonempty token Hne), Hs.
  - intros s id t Hs Hint Ht Hbad. unfold Config.load_config. cbv zeta.
    rewrite Htok, (truthy_nonempty token Hne), Hs,
      (truthy_nonempty s (Hnonempty s id Hint)), Ht.
    cbn [negb]. change (default [] (Some s)) with s.
    change (default (of_string "300") (Some t)) with t.
    now rewrite Hint, Hbad.
  - intros s id Hs Hint Ht. unfold Config.load_config. cbv zeta.
    rewrite Htok, (truthy_nonempty token Hne), Hs,
      (truthy_nonempty s (Hnonempty s id Hint)), Ht.
    cbn [negb]. change (default [] (Some s)) with s.
    change (default (of_string "300") None) with (of_string "300").
    now rewrite Hint, int_300.
Qed.

End Startup.

(* ===================================================================== *)
(** ** The theorems at work on sample inputs *)
(* ===================================================================== *)

(** The stored address is fetched again: nothing happens. *)
Lemma unchanged_address_no_action_witness :
  ip_monitor Posix 1 (all_fine ip_old) (holding ip_old)
  = (Returned tt, holding ip_old).
Proof.
  apply (unchanged_address_no_action Posix 1 _ _ ip_old); reflexivity.
Defined.

(** A new address replaces a stored one: the change message names both. *)
Lemma change_decision_message_witness :
  send_calls (trace (snd (ip_monitor Posix 1 (all_fine ip_new)
                            (holding ip_old))))
  = [changed_msg ip_old ip_new]
  /\ mentions (changed_msg ip_old ip_new) ip_old
  /\ mentions (changed_msg ip_old ip_new) ip_new.
Proof.
  apply (change_decision_message Posix 1 (all_fine ip_new) (holding ip_old)
           ip_new (Some ip_old));
    first [reflexivity | discriminate].
Defined.

(** The state file cannot be opened for writing: the tick ends with the
    error of the save; it is not caught, no record is logged. *)
Lemma save_failure_leaves_the_tick :
  fst (ip_monitor Posix 1 (open_fails (all_fine ip_new)) (holding ip_old))
  = Raised StateWriteError
  /\ log_records
       (trace (snd (ip_monitor Posix 1 (open_fails (all_fine ip_new))
                      (holding ip_old))))
     = [].
Proof. split; reflexivity. Qed.

Lemma save_precedes_notification_witness :
  fst (ip_monitor Posix 1 (send_fails (all_fine ip_new)) (holding ip_old))
  = Raised ChannelSendError
  /\ state_file (snd (ip_monitor Posix 1 (send_fails (all_fine ip_new))
                        (holding ip_old)))
     = Some ip_new.
Proof.
  destruct (save_precedes_notification Posix 1 (send_fails (all_fine ip_new))
              (holding ip_old) ip_new (Some ip_old))
    as [_ H]; [reflexivity | reflexivity | discriminate |].
  destruct H as (Hfile & _ & Hsend); [reflexivity | reflexivity |].
  split; [apply Hsend; reflexivity | exact Hfile].
Defined.

(** The message is refused by the chat service: the tick does not return,
    it ends with the error of the send. *)
Lemma send_failure_leaves_the_tick :
  fst (ip_monitor Posix 1 (send_fails (all_fine ip_new)) fresh)
  = Raised ChannelSendError
  /\ fst (ip_monitor Posix 1 (send_fails (all_fine ip_new)) fresh)
     <> Returned tt.
Proof. split; [reflexivity | discriminate]. Qed.

Lemma tick_result_witness :
  fst (ip_monitor Posix 1 (no_channel (send_fails (all_fine ip_new)))
         (holding ip_old))
  = Returned tt.
Proof.
  apply (tick_result Posix 1 (no_channel (send_fails (all_fine ip_new)))
           (holding ip_old)).
  right. exists ip_new, (Some ip_old).
  split; [reflexivity|]. split; [reflexivity|]. right.
  split; [reflexivity|]. split; [reflexivity|]. left. reflexivity.
Defined.

(** A save completed, the next one fails once the file is open: the file is
    empty and a load finds no stored address. *)
Lemma failed_save_empties_the_file :
  let w1 := snd (save_last_ip Posix ip_old (all_fine ip_old) fresh) in
  let w2 := snd (save_last_ip Posix ip_new (write_fails 0 (all_fine ip_new))
                   w1) in
  fst (save_last_ip Posix ip_old (all_fine ip_old) fresh) = Returned tt
  /\ fst (load_last_ip (all_fine ip_new) w1) = Returned (Some ip_old)
  /\ state_file w2 = Some []
  /\ fst (load_last_ip (all_fine ip_new) w2) = Returned None.
Proof. repeat split; reflexivity. Qed.

Lemma save_rewrites_in_place_witness :
  fst (save_last_ip Posix ip_new (write_fails 3 (all_fine ip_new))
         (holding ip_old))
  = Raised StateWriteError
  /\ state_file (snd (save_last_ip Posix ip_new
                        (write_fails 3 (all_fine ip_new)) (holding ip_old)))
     = Some (of_string "5.6").
Proof.
  destruct (save_rewrites_in_place Posix ip_new
              (write_fails 3 (all_fine ip_new)) (holding ip_old))
    as (_ & _ & _ & H).
  apply (H 3%nat); reflexivity.
Defined.

(** Text with a line end is stored, and comes back without it. *)
Lemma trailing_newline_not_returned :
  ip_old ++ [LF] <> []
  /\ fst (load_last_ip (all_fine ip_old)
            (snd (save_last_ip Posix (ip_old ++ [LF]) (all_fine ip_old)
                    fresh)))
     = Returned (Some ip_old)
  /\ Returned (Some ip_old) <> Returned (A := option str) (Some (ip_old ++ [LF])).
Proof. repeat split; [discriminate | discriminate]. Qed.

Lemma save_then_load_witness :
  fst (save_last_ip Windows ip_new (all_fine ip_new) (holding ip_old))
  = Returned tt
  /\ fst (load_last_ip (all_fine ip_new)
            (snd (save_last_ip Windows ip_new (all_fine ip_new)
                    (holding ip_old))))
     = Returned (Some ip_new).
Proof.
  apply (save_then_load Windows ip_new (all_fine ip_new) (all_fine ip_new)
           (holding ip_old));
    first [reflexivity | discriminate | compute_done].
Defined.

(** The first tick saves an address, the write of the second tick fails:
    the file is empty although the last completed save wrote the first
    address. *)
Lemma failed_save_breaks_last_save :
  let w := snd (run Posix 1 [all_fine ip_old; write_fails 0 (all_fine ip_new)]
                  fresh) in
  state_file w = Some []
  /\ last_written (trace w) = Some ip_old
  /\ ~ holds_last_save None (trace w) (state_file w).
Proof. repeat split; discriminate. Qed.

Lemma persisted_state_invariant_witness :
  exists tr,
    trace (snd (run Posix 1 [all_fine ip_old; fetch_fails [] (all_fine []);
                             all_fine ip_new] fresh))
    = trace fresh ++ tr
    /\ holds_last_save None tr
         (state_file (snd (run Posix 1
                             [all_fine ip_old; fetch_fails [] (all_fine []);
                              all_fine ip_new] fresh))).
Proof.
  destruct (persisted_state_invariant Posix 1
              [all_fine ip_old; fetch_fails [] (all_fine []); all_fine ip_new]
              fresh) as [_ H].
  destruct H as (tr & Htr & Hfile & _).
  - repeat (apply Forall_cons; split; [reflexivity|]). apply Forall_nil_2.
  - exists tr. split; [exact Htr | exact Hfile].
Defined.

(** The service answers with an empty body twice: both ticks notify. *)
Lemma empty_address_notified_twice :
  http (all_fine []) = HttpText []
  /\ notifications (trace (snd (ip_monitor Posix 1 (all_fine []) fresh)))
     = [started_msg []]
  /\ notifications (trace (snd (run Posix 1 [all_fine []; all_fine []] fresh)))
     = [started_msg []; started_msg []].
Proof. repeat split; reflexivity. Qed.

Lemma second_tick_silent_witness :
  notifications (trace (snd (ip_monitor Posix 1 (all_fine ip_new)
                               (holding ip_old))))
  = [changed_msg ip_old ip_new]
  /\ notifications
       (trace (snd (run Posix 1 [all_fine ip_new; all_fine (ip_new ++ [LF])]
                      (holding ip_old))))
     = notifications (trace (snd (ip_monitor Posix 1 (all_fine ip_new)
                                    (holding ip_old)))).
Proof.
  apply (second_tick_silent Posix 1 (all_fine ip_new)
           (all_fine (ip_new ++ [LF])) (holding ip_old) ip_new
           (ip_new ++ [LF]) (Some ip_old));
    first [reflexivity | discriminate | compute_done].
Defined.

(** An empty address is saved while the channel is not found; the next
    tick fetches the same empty address, finds the channel and notifies. *)
Lemma empty_address_notified_later :
  send_calls (trace (snd (ip_monitor Posix 1 (no_channel (all_fine []))
                            fresh))) = []
  /\ state_file (snd (ip_monitor Posix 1 (no_channel (all_fine [])) fresh))
     = Some []
  /\ notifications
       (trace (snd (run Posix 1 [no_channel (all_fine []); all_fine []]
                      fresh)))
     = [started_msg []].
Proof. repeat split; reflexivity. Qed.

Lemma unresolved_channel_never_notified_witness :
  let w1 := snd (ip_monitor Posix 1 (no_channel (all_fine ip_new))
                   (holding ip_old)) in
  let later := [all_fine ip_new; fetch_fails [] (all_fine []);
                all_fine ip_new] in
  state_file w1 = Some ip_new
  /\ send_calls (trace w1) = []
  /\ state_file (snd (run Posix 1 later w1)) = Some ip_new
  /\ send_calls (trace (snd (run Posix 1 later w1))) = [].
Proof.
  apply (unresolved_channel_never_notified Posix 1
           (no_channel (all_fine ip_new))
           [all_fine ip_new; fetch_fails [] (all_fine []); all_fine ip_new]
           (holding ip_old) ip_new (Some ip_old));
    try first [reflexivity | discriminate | compute_done].
  repeat (apply Forall_cons; split; [reflexivity || exact I|]).
  apply Forall_nil_2.
Defined.

(** NOTIFY_CHANNEL_ID is set to the empty text, which is no integer:
    start-up stops with the message for a missing setting, not with the
    conversion error. *)
Lemma empty_channel_id_reported_missing :
  Config.getenv Config.env_empty_channel "NOTIFY_CHANNEL_ID" = Some []
  /\ py_int ascii_digits_only 4300 [] = None
  /\ Config.load_config ascii_digits_only 4300 Config.env_empty_channel
     = inl (Config.RuntimeError (of_string "NOTIFY_CHANNEL_ID not set")).
Proof. repeat split; vm_compute; reflexivity. Qed.

Lemma integer_settings_witness :
  Config.load_config ascii_digits_only 4300 Config.env_bad_channel
  = inl Config.ValueError.
Proof.
  destruct (integer_settings ascii_digits_only 4300 Config.env_bad_channel
              (of_string "token")) as [H _].
  - vm_compute; reflexivity.
  - discriminate.
  - apply (H (of_string "general")).
    + vm_compute; reflexivity.
    + discriminate.
    + vm_compute; reflexivity.
Defined.

(* ===================================================================== *)
(** ** More about text *)
(* ===================================================================== *)

Section MoreTextFacts.

Lemma lstrip_blank s : blank s -> lstrip s = [].
Proof.
  induction 1 as [|c s Hc _ IH]; [reflexivity|]. simpl. now rewrite Hc.
Qed.

Lemma rstrip_blank s : blank s -> rstrip s = [].
Proof.
  induction 1 as [|c s Hc _ IH]; [reflexivity|]. simpl. now rewrite IH, Hc.
Qed.

Lemma strip_blank_text s : blank s -> strip s = [].
Proof. intros H. unfold strip. now rewrite (lstrip_blank s H). Qed.

Lemma lstrip_app_blank w t : blank w -> lstrip (w ++ t) = lstrip t.
Proof.
  induction 1 as [|c w Hc _ IH]; [reflexivity|]. simpl. now rewrite Hc.
Qed.

Lemma rstrip_app_blank t w : blank w -> rstrip (t ++ w) = rstrip t.
Proof.
  intros Hw. induction t as [|c t IH]; simpl.
  - now apply rstrip_blank.
  - now rewrite IH.
Qed.

Lemma lstrip_length s : (length (lstrip s) <= length s)%nat.
Proof.
  induction s as [|c s IH]; simpl; [lia|].
  destruct (is_space c); simpl; lia.
Qed.

Lemma rstrip_length s : (length (rstrip s) <= length s)%nat.
Proof.
  induction s as [|c s IH]; simpl; [lia|].
  destruct (rstrip s); [destruct (is_space c)|]; simpl in *; lia.
Qed.

Lemma lstrip_same_length s : length (lstrip s) = length s -> lstrip s = s.
Proof.
  destruct s as [|c s]; [reflexivity|]. simpl.
  destruct (is_space c); [|reflexivity].
  pose proof (lstrip_length s). simpl. lia.
Qed.

Lemma rstrip_same_length s : length (rstrip s) = length s -> rstrip s = s.
Proof.
  induction s as [|c s IH]; [reflexivity|].
  pose proof (rstrip_length s) as Hlen. simpl.
  destruct (rstrip s) as [|d r] eqn:E.
  - destruct s; [|simpl in *; destruct (is_space c); simpl; lia].
    destruct (is_space c); [discriminate | reflexivity].
  - simpl. intros H. rewrite IH; [reflexivity | simpl in *; lia].
Qed.

(** A text that [strip] leaves alone is left alone by both halves. *)
Lemma strip_fixed s : strip s = s -> lstrip s = s /\ rstrip s = s.
Proof.
  unfold strip. intros H.
  pose proof (lstrip_length s) as Hl.
  pose proof (rstrip_length (lstrip s)) as Hr.
  assert (Hs : lstrip s = s).
  { apply lstrip_same_length. rewrite H in Hr. lia. }
  split; [exact Hs | now rewrite Hs in H].
Qed.

Lemma lstrip_subset c s : c ∈ lstrip s -> c ∈ s.
Proof.
  induction s as [|d s IH]; [easy|]. simpl.
  destruct (is_space d); [|easy].
  intros H. apply list_elem_of_further. now apply IH.
Qed.

Lemma rstrip_subset c s : c ∈ rstrip s -> c ∈ s.
Proof.
  induction s as [|d s IH]; [easy|]. simpl.
  destruct (rstrip s) as [|e r].
  - destruct (is_space d); [intros H; now apply elem_of_nil in H|].
    intros H. apply list_elem_of_singleton in H as ->.
    apply list_elem_of_here.
  - intros H. apply elem_of_cons in H as [->|H].
    + apply list_elem_of_here.
    + apply list_elem_of_further. now apply IH.
Qed.

Lemma strip_subset c s : c ∈ strip s -> c ∈ s.
Proof. intros H. now apply lstrip_subset, rstrip_subset. Qed.

(** Every character that [universal_newlines] returns is a line feed or a
    character of the input other than a carriage return. *)
Lemma universal_newlines_elem s c :
  c ∈ universal_newlines s -> c = LF \/ (c ∈ s /\ c <> CR).
Proof.
  remember (length s) as n eqn:Hn. revert s Hn.
  induction n as [n IH] using lt_wf_ind. intros s Hn.
  destruct s as [|x s]; [intros H; now apply elem_of_nil in H|].
  simpl. destruct (N.eqb_spec x CR) as [->|Hx].
  - intros H. apply elem_of_cons in H as [->|H]; [now left|].
    destruct s as [|y s]; [now apply elem_of_nil in H|].
    destruct (N.eqb_spec y LF) as [->|Hy].
    + destruct (IH (length s) ltac:(simpl in Hn; lia) s eq_refl H)
        as [->|[Hin Hc]]; [now left|].
      right. split; [|exact Hc]. now do 2 apply list_elem_of_further.
    + destruct (IH (length (y :: s)) ltac:(simpl in *; lia) (y :: s) eq_refl H)
        as [->|[Hin Hc]]; [now left|].
      right. split; [|exact Hc]. now apply list_elem_of_further.
  - intros H. apply elem_of_cons in H as [->|H].
    + right. split; [apply list_elem_of_here | exact Hx].
    + destruct (IH (length s) ltac:(simpl in Hn; lia) s eq_refl H)
        as [->|[Hin Hc]]; [now left|].
      right. split; [|exact Hc]. now apply list_elem_of_further.
Qed.

Lemma universal_newlines_no_cr_out s : CR ∉ universal_newlines s.
Proof.
  intros H. apply universal_newlines_elem in H as [H|[_ H]];
    [discriminate | congruence].
Qed.

Lemma universal_newlines_blank s : blank s -> blank (universal_newlines s).
Proof.
  unfold blank. rewrite !Forall_forall. intros Hs c Hc.
  apply universal_newlines_elem in Hc as [->|[Hin _]];
    [reflexivity | now apply Hs].
Qed.

(** Text without carriage returns is passed through, whatever follows. *)
Lemma universal_newlines_app_no_cr a b :
  CR ∉ a -> universal_newlines (a ++ b) = a ++ universal_newlines b.
Proof.
  induction a as [|c a IH]; [reflexivity|].
  intros H. apply not_elem_of_cons in H as [Hc Ha].
  simpl. destruct (N.eqb_spec c CR) as [->|_]; [congruence|].
  now rewrite IH.
Qed.

(** The translation splits in front of any character but a line feed. *)
Lemma universal_newlines_app a d b :
  d <> LF ->
  universal_newlines (a ++ d :: b)
  = universal_newlines a ++ universal_newlines (d :: b).
Proof.
  intros Hd. remember (length a) as n eqn:Hn. revert a Hn.
  induction n as [n IH] using lt_wf_ind. intros a Hn.
  destruct a as [|x a]; [reflexivity|].
  cbn [app]. cbn [universal_newlines].
  destruct (N.eqb_spec x CR) as [->|Hx].
  - destruct a as [|y a].
    + cbn [app]. destruct (N.eqb_spec d LF); [congruence | reflexivity].
    + cbn [app]. destruct (N.eqb_spec y LF) as [->|Hy].
      * now rewrite (IH (length a) ltac:(simpl in Hn; lia) a eq_refl).
      * change (y :: a ++ d :: b) with ((y :: a) ++ d :: b).
        now rewrite (IH (length (y :: a)) ltac:(simpl in *; lia) (y :: a)
                       eq_refl).
  - now rewrite (IH (length a) ltac:(simpl in Hn; lia) a eq_refl).
Qed.

(** An address between blanks, as [load_last_ip] reads it. *)
Lemma strip_between_blanks before ip after :
  blank before -> blank after -> ip <> [] -> strip ip = ip -> CR ∉ ip ->
  strip (universal_newlines (before ++ ip ++ after)) = ip.
Proof.
  intros Hb Ha Hne Hs Hcr.
  destruct (strip_fixed ip Hs) as [Hl Hr].
  destruct ip as [|c ip]; [congruence|].
  assert (Hc : is_space c = false).
  { simpl in Hl. destruct (is_space c) eqn:E; [|reflexivity].
    pose proof (lstrip_length ip) as Hlen. rewrite Hl in Hlen.
    simpl in Hlen. lia. }
  assert (Hlf : c <> LF) by (intros ->; discriminate).
  change ((c :: ip) ++ after) with (c :: (ip ++ after)).
  rewrite (universal_newlines_app before c (ip ++ after) Hlf).
  change (c :: (ip ++ after)) with ((c :: ip) ++ after).
  rewrite (universal_newlines_app_no_cr (c :: ip) after Hcr).
  unfold strip.
  rewrite (lstrip_app_blank _ _ (universal_newlines_blank before Hb)).
  change ((c :: ip) ++ universal_newlines after)
    with (c :: (ip ++ universal_newlines after)).
  rewrite (lstrip_head_not_space c _ Hc).
  change (c :: (ip ++ universal_newlines after))
    with ((c :: ip) ++ universal_newlines after).
  rewrite (rstrip_app_blank _ _ (universal_newlines_blank after Ha)).
  exact Hr.
Qed.

End MoreTextFacts.

(* ===================================================================== *)
(** ** Fetching, loading and saving: further properties *)
(* ===================================================================== *)

Section StoreAndFetch.

Variable p : Platform.

Lemma rstrip_fixed_last s c :
  rstrip s = s -> last s = Some c -> is_space c = false.
Proof.
  induction s as [|d s IH]; [discriminate|].
  destruct s as [|e s].
  - simpl. intros H [= <-]. now destruct (is_space d).
  - intros H Hlast. apply IH; [|exact Hlast].
    change (rstrip (d :: e :: s))
      with (match rstrip (e :: s) with
            | [] => if is_space d then [] else [d]
            | r => d :: r
            end) in H.
    destruct (rstrip (e :: s)) as [|x r];
      [destruct (is_space d); discriminate | congruence].
Qed.

Lemma lstrip_fixed_head s c :
  lstrip s = s -> head s = Some c -> is_space c = false.
Proof.
  destruct s as [|d s]; [discriminate|]. simpl. intros H [= <-].
  destruct (is_space d) eqn:E; [|reflexivity].
  pose proof (lstrip_length s) as Hlen. rewrite H in Hlen. simpl in Hlen. lia.
Qed.

(** X1: [fetch_public_ip] touches neither the state file nor the channel.
    It returns [None] exactly when the request raised an [Exception], and
    then logs one warning that ends with the text of the exception; it logs
    nothing otherwise.  It raises only when the request is interrupted by
    what [except Exception] does not catch. *)
Theorem fetch_contract io w :
  state_file (snd (fetch_public_ip io w)) = state_file w
  /\ send_calls (trace (snd (fetch_public_ip io w))) = send_calls (trace w)
  /\ (fst (fetch_public_ip io w) = Returned None
      <-> exists exc, http io = HttpFailed exc)
  /\ (forall e, fst (fetch_public_ip io w) = Raised e ->
        e = Interrupted /\ http io = HttpInterrupted)
  /\ log_records (trace (snd (fetch_public_ip io w)))
     = log_records (trace w)
       ++ match http io with
          | HttpFailed exc =>
              [(WARNING, of_string "Failed to fetch public IP: " ++ exc)]
          | _ => []
          end.
Proof.
  unfold fetch_public_ip, bind, ask, log, emit, ret, raise.
  destruct (http io) as [body|exc|]; simpl.
  - repeat split; try easy.
    + intros [exc [=]].
    + now rewrite app_nil_r.
  - repeat split; try easy.
    + rewrite send_calls_app. simpl. now rewrite app_nil_r.
    + eauto.
    + now rewrite log_records_app.
  - repeat split; try easy.
    + intros [exc [=]].
    + congruence.
    + now rewrite app_nil_r.
Qed.

(** X2: the address [fetch_public_ip] returns is stripped: stripping it
    again changes nothing, and neither its first nor its last character is
    whitespace. *)
Theorem fetched_address_is_stripped io w ip :
  fst (fetch_public_ip io w) = Returned (Some ip) ->
  strip ip = ip
  /\ (forall c, head ip = Some c -> is_space c = false)
  /\ (forall c, last ip = Some c -> is_space c = false).
Proof.
  unfold fetch_public_ip, bind, ask, log, emit, ret.
  destruct (http io) as [body|exc|]; simpl; [|discriminate|discriminate].
  intros [= <-].
  pose proof (strip_idem body) as Hs.
  destruct (strip_fixed _ Hs) as [Hl Hr].
  split; [exact Hs|]. split; intros c Hc.
  - exact (lstrip_fixed_head _ c Hl Hc).
  - exact (rstrip_fixed_last _ c Hr Hc).
Qed.

(** X3: a body of whitespace only (an empty body included) is fetched as
    the empty address, not as a failure. *)
Theorem blank_body_is_empty_address io w body :
  http io = HttpText body -> blank body ->
  fetch_public_ip io w = (Returned (Some []), w).
Proof.
  intros Hh Hb. unfold fetch_public_ip, bind, ask, ret. simpl.
  now rewrite Hh, (strip_blank_text body Hb).
Qed.

(** X4: [load_last_ip] changes nothing, and an address it returns is not
    empty, is stripped and holds no carriage return. *)
Theorem loaded_address_is_clean io w ip :
  fst (load_last_ip io w) = Returned (Some ip) ->
  snd (load_last_ip io w) = w
  /\ ip <> [] /\ strip ip = ip /\ CR ∉ ip.
Proof.
  intros H. split; [apply load_last_ip_world|].
  destruct (state_file w) as [content|] eqn:Hf.
  - destruct (read_ok io) eqn:Hr.
    + rewrite (load_last_ip_file io w content Hf Hr) in H. simpl in H.
      pose proof (strip_idem (universal_newlines content)) as Hs.
      assert (Hcr : CR ∉ strip (universal_newlines content)).
      { intros Hin. apply strip_subset in Hin.
        exact (universal_newlines_no_cr_out content Hin). }
      destruct (strip (universal_newlines content)) as [|c t];
        [discriminate|].
      injection H as <-. easy.
    + now rewrite (load_last_ip_unreadable io w content Hf Hr) in H.
  - now rewrite (load_last_ip_no_file io w Hf) in H.
Qed.

(** X5: a state file of whitespace only (an empty file included) counts as
    no state, like a missing file. *)
Theorem blank_file_is_no_state io w content :
  state_file w = Some content -> blank content -> read_ok io = true ->
  load_last_ip io w = (Returned None, w)
  /\ fst (load_last_ip io w)
     = fst (load_last_ip io {| state_file := None; trace := trace w |}).
Proof.
  intros Hf Hb Hr.
  rewrite (load_last_ip_file io w content Hf Hr).
  rewrite (strip_blank_text _ (universal_newlines_blank content Hb)).
  split; reflexivity.
Qed.

(** X6: whitespace around the address in the state file (a final line end
    added by an editor, say) is ignored: the address between the blanks is
    what [load_last_ip] returns. *)
Theorem load_ignores_surrounding_blanks io w before ip after :
  blank before -> blank after ->
  ip <> [] -> strip ip = ip -> CR ∉ ip ->
  state_file w = Some (before ++ ip ++ after) -> read_ok io = true ->
  load_last_ip io w = (Returned (Some ip), w).
Proof.
  intros Hb Ha Hne Hs Hcr Hf Hr.
  rewrite (load_last_ip_file io w _ Hf Hr).
  rewrite (strip_between_blanks before ip after Hb Ha Hne Hs Hcr).
  now destruct ip.
Qed.

(** X7: for text without carriage returns, a load after a completed save
    returns the stripped text, or nothing when the text is blank, on either
    platform. *)
Theorem save_then_load_strips v io io' w :
  CR ∉ v ->
  open_w_ok io = true -> write_fault io = None -> read_ok io' = true ->
  fst (load_last_ip io' (snd (save_last_ip p v io w)))
  = Returned (match strip v with
              | [] => None
              | ip => Some ip
              end).
Proof.
  intros Hcr Ho Hw Hr. rewrite save_last_ip_eq, Ho, Hw.
  rewrite load_last_ip_file with (content := write_newlines p v)
    by first [reflexivity | exact Hr].
  now rewrite (read_back_written p v Hcr).
Qed.

End StoreAndFetch.

(* ===================================================================== *)
(** ** Ticks and runs: further properties *)
(* ===================================================================== *)

Section TicksAndRuns.

Variable p : Platform.
Variable cid : Z.

(** The events of one tick. *)
Lemma tick_events io w :
  exists tr,
    trace (snd (ip_monitor p cid io w)) = trace w ++ tr
    /\ (tr = []
        \/ (exists m, tr = [Logged WARNING m])
        \/ tr = [FileTruncated]
        \/ (exists d m, tr = [FileTruncated; FileWritten d; Logged ERROR m])
        \/ (exists d m, tr = [FileTruncated; FileWritten d;
                              SendCalled m true; Logged INFO m])
        \/ (exists d m, tr = [FileTruncated; FileWritten d;
                              SendCalled m false])).
Proof.
  tick_cases p cid io w b pr; rewrite ?app_nil_r, <- ?app_assoc;
    first
      [ exists []; rewrite app_nil_r; split; [reflexivity | now left]
      | eexists; split; [reflexivity | simpl; eauto 12] ].
Qed.

(** What holds of the events of every tick, of no events, and of two
    histories put together, holds of the events of every run. *)
Lemma run_events_ind (P : list Event -> Prop) :
  P [] ->
  (forall a b, P a -> P b -> P (a ++ b)) ->
  (forall io w tr,
      trace (snd (ip_monitor p cid io w)) = trace w ++ tr -> P tr) ->
  forall ios w,
    exists tr, trace (snd (run p cid ios w)) = trace w ++ tr /\ P tr.
Proof.
  intros Hnil Happ Htick ios.
  induction ios as [|io ios IH]; intros w.
  - exists []. simpl. now rewrite app_nil_r.
  - rewrite run_cons.
    destruct (tick_events io w) as (tr1 & Ht1 & _).
    destruct (IH (snd (ip_monitor p cid io w))) as (tr2 & Ht2 & Hp2).
    exists (tr1 ++ tr2). split.
    + now rewrite Ht2, Ht1, app_assoc.
    + apply Happ; [exact (Htick io w tr1 Ht1) | exact Hp2].
Qed.

(** X8: a tick calls [channel.send] at most once, and only with the message
    of a change it detected itself: the stored address was read, differs
    from the fetched one, and the message is the one for this pair. *)
Theorem tick_sends_only_its_change io w :
  send_calls (trace (snd (ip_monitor p cid io w))) = send_calls (trace w)
  \/ exists body prev,
       http io = HttpText body
       /\ fst (load_last_ip io w) = Returned prev
       /\ prev <> Some (strip body)
       /\ send_calls (trace (snd (ip_monitor p cid io w)))
          = send_calls (trace w) ++ [change_msg prev (strip body)].
Proof.
  tick_cases p cid io w b pr; rewrite ?send_calls_app; simpl; rewrite ?app_nil_r;
    try (now left).
  - right. exists b, pr. easy.
  - right. exists b, pr. easy.
Qed.

(** X9: a run of [n] ticks calls [channel.send] at most [n] times. *)
Theorem run_sends_at_most_once_per_tick ios w :
  (length (send_calls (trace (snd (run p cid ios w))))
   <= length (send_calls (trace w)) + length ios)%nat.
Proof.
  revert w. induction ios as [|io ios IH]; intros w; [simpl; lia|].
  rewrite run_cons. specialize (IH (snd (ip_monitor p cid io w))).
  destruct (tick_events io w) as (tr & Htr & Hshape).
  rewrite Htr, send_calls_app, length_app in IH.
  destruct Hshape
    as [->|[(m & ->)|[->|[(d & m & ->)|[(d & m & ->)|(d & m & ->)]]]]];
    simpl in *; lia.
Qed.

Lemma prefix_cons_cases (x : Event) pre tr :
  pre `prefix_of` x :: tr ->
  pre = [] \/ exists pre', pre = x :: pre' /\ pre' `prefix_of` tr.
Proof.
  destruct pre as [|y pre]; [now left|]. intros H. right.
  pose proof (prefix_cons_inv_1 _ _ _ _ H) as ->.
  exists pre. split; [reflexivity|]. exact (prefix_cons_inv_2 _ _ _ _ H).
Qed.

Lemma prefix_app_cases (a b pre : list Event) :
  pre `prefix_of` a ++ b ->
  pre `prefix_of` a \/ exists pb, pre = a ++ pb /\ pb `prefix_of` b.
Proof.
  revert pre. induction a as [|x a IH]; intros pre H.
  - right. now exists pre.
  - apply prefix_cons_cases in H as [->|(pre' & -> & H)].
    + left. apply prefix_nil.
    + destruct (IH pre' H) as [Ha|(pb & -> & Hb)].
      * left. now apply prefix_cons.
      * right. now exists pb.
Qed.

Lemma sends_backed_by_saves_app a b :
  sends_backed_by_saves a -> sends_backed_by_saves b ->
  sends_backed_by_saves (a ++ b).
Proof.
  intros Ha Hb pre Hpre.
  apply prefix_app_cases in Hpre as [H|(pb & -> & H)].
  - now apply Ha.
  - specialize (Ha a (reflexivity a)). specialize (Hb pb H).
    unfold completed_saves in *. rewrite send_calls_app, omap_app, !length_app.
    lia.
Qed.

(** X10: over any run, every call of [channel.send] comes after a completed
    save of its own: at no moment have more sends been called than saves
    completed. *)
Theorem run_sends_backed_by_saves ios w :
  exists tr,
    trace (snd (run p cid ios w)) = trace w ++ tr
    /\ sends_backed_by_saves tr.
Proof.
  apply run_events_ind.
  - intros pre H. apply prefix_nil_inv in H as ->. simpl. lia.
  - exact sends_backed_by_saves_app.
  - intros io w' tr Htr.
    destruct (tick_events io w') as (tr' & Htr' & Hshape).
    rewrite Htr in Htr'. apply app_inv_head in Htr' as <-.
    intros pre Hpre.
    destruct Hshape as [->|[(m & ->)|[->|[(d & m & ->)|[(d & m & ->)|(d & m & ->)]]]]];
      repeat (apply prefix_cons_cases in Hpre as [->|(? & -> & Hpre)];
              [simpl; lia|]);
      apply prefix_nil_inv in Hpre as ->; simpl; lia.
Qed.

(** X11: over any run, the INFO records of the log are exactly the
    notifications that were delivered, in the same order. *)
Theorem info_log_mirrors_notifications ios w :
  exists tr,
    trace (snd (run p cid ios w)) = trace w ++ tr
    /\ info_messages tr = notifications tr.
Proof.
  apply run_events_ind.
  - reflexivity.
  - intros a b Ha Hb. unfold info_messages in *.
    rewrite notifications_app, omap_app. congruence.
  - intros io w' tr Htr.
    destruct (tick_events io w') as (tr' & Htr' & Hshape).
    rewrite Htr in Htr'. apply app_inv_head in Htr' as <-.
    destruct Hshape as [->|[(m & ->)|[->|[(d & m & ->)|[(d & m & ->)|(d & m & ->)]]]]];
      reflexivity.
Qed.

(** X12: no run logs a DEBUG record: "IP unchanged." never reaches the
    log. *)
Theorem debug_never_logged ios w :
  exists tr,
    trace (snd (run p cid ios w)) = trace w ++ tr
    /\ forall msg, Logged DEBUG msg ∉ tr.
Proof.
  apply run_events_ind.
  - intros msg H. now apply elem_of_nil in H.
  - intros a b Ha Hb msg H. apply elem_of_app in H as [H|H];
      [exact (Ha msg H) | exact (Hb msg H)].
  - intros io w' tr Htr.
    destruct (tick_events io w') as (tr' & Htr' & Hshape).
    rewrite Htr in Htr'. apply app_inv_head in Htr' as <-.
    intros msg H.
    destruct Hshape as [->|[(m & ->)|[->|[(d & m & ->)|[(d & m & ->)|(d & m & ->)]]]]];
      repeat (apply elem_of_cons in H as [H|H]; [discriminate|]);
      now apply elem_of_nil in H.
Qed.

(** X13: a tick changes the state file only when it has detected a change:
    the address was fetched, the stored one was read and differs, and the
    file could be opened for writing. *)
Theorem file_changes_only_on_detected_change io w :
  state_file (snd (ip_monitor p cid io w)) <> state_file w ->
  exists body prev,
    http io = HttpText body
    /\ fst (load_last_ip io w) = Returned prev
    /\ prev <> Some (strip body)
    /\ open_w_ok io = true.
Proof.
  tick_cases p cid io w b pr; intros H; try congruence; exists b, pr; easy.
Qed.

(** [load_last_ip] looks at the file and at whether it can be read, at
    nothing else. *)
Lemma load_last_ip_depends io io' w w' :
  state_file w = state_file w' -> read_ok io = read_ok io' ->
  fst (load_last_ip io w) = fst (load_last_ip io' w').
Proof.
  intros Hf Hr. destruct (state_file w') as [content|] eqn:Hf'.
  - destruct (read_ok io') eqn:Hr'.
    + now rewrite (load_last_ip_file io w content Hf Hr),
        (load_last_ip_file io' w' content Hf' Hr').
    + now rewrite (load_last_ip_unreadable io w content Hf Hr),
        (load_last_ip_unreadable io' w' content Hf' Hr').
  - now rewrite (load_last_ip_no_file io w Hf),
      (load_last_ip_no_file io' w' Hf').
Qed.

(** X14: after a tick that returned normally with a fetched address that is
    not empty and holds no carriage return, the state file gives back that
    address. *)
Theorem tick_stores_fetched_address io io' w body :
  http io = HttpText body ->
  strip body <> [] -> CR ∉ strip body ->
  fst (ip_monitor p cid io w) = Returned tt ->
  read_ok io' = true ->
  fst (load_last_ip io' (snd (ip_monitor p cid io w)))
  = Returned (Some (strip body)).
Proof.
  intros Hb Hne Hcr Hret Hr'. revert Hret.
  assert (Hsaved : forall tr,
    fst (load_last_ip io'
           {| state_file := Some (write_newlines p (strip body));
              trace := tr |})
    = Returned (Some (strip body))).
  { intros tr.
    rewrite load_last_ip_file
      with (content := write_newlines p (strip body))
      by first [reflexivity | exact Hr'].
    rewrite (strip_read_back p _ (strip_idem body) Hcr).
    now destruct (strip body). }
  tick_cases p cid io w b pr; try discriminate; intros _;
    injection Hb as <-; try apply Hsaved.
  assert (Hpr : pr = Some (strip b))
    by (destruct (decide (pr = Some (strip b))); tauto).
  subst pr. rewrite <- Hl.
  apply load_last_ip_depends; [reflexivity|].
  destruct (read_ok io) eqn:Hr; [now rewrite Hr'|].
  destruct (state_file w) as [content|] eqn:Hf.
  - now rewrite (load_last_ip_unreadable io w content Hf Hr) in Hl.
  - now rewrite (load_last_ip_no_file io w Hf) in Hl.
Qed.

(** X15: a state file that cannot be read is left alone: the tick ends with
    the read error before anything is written, sent or logged. *)
Theorem unreadable_state_file_left_alone io w body content :
  http io = HttpText body ->
  state_file w = Some content -> read_ok io = false ->
  ip_monitor p cid io w = (Raised StateReadError, w).
Proof.
  intros Hh Hf Hr. rewrite (ip_monitor_fetched p cid io w body Hh).
  now rewrite (load_last_ip_unreadable io w content Hf Hr).
Qed.

(** X23: no tick removes the state file: once it exists, it exists after
    every run. *)
Theorem state_file_never_removed ios w :
  is_Some (state_file w) ->
  is_Some (state_file (snd (run p cid ios w))).
Proof.
  revert w. induction ios as [|io ios IH]; intros w Hw; [exact Hw|].
  rewrite run_cons. apply IH.
  tick_cases p cid io w b pr; eauto.
Qed.

End TicksAndRuns.

(* ===================================================================== *)
(** ** Start-up: further properties *)
(* ===================================================================== *)

Section MoreStartup.

Variable unicode_decimal : char -> option N.
Variable int_max_str_digits : N.

Lemma truthy_false (o : option str) :
  Config.truthy o = false <-> o = None \/ o = Some [].
Proof.
  destruct o as [[|c s]|]; simpl; split; intros H; try easy; eauto.
  destruct H as [H|H]; discriminate.
Qed.

Lemma truthy_true (o : option str) :
  Config.truthy o = true <-> exists s, o = Some s /\ s <> [].
Proof.
  destruct o as [[|c s]|]; simpl; split; intros H; try easy.
  - now destruct H as (s & [= <-] & Hs).
  - now exists (c :: s).
  - now destruct H as (s & [=] & _).
Qed.

(** X17: start-up stops with the RuntimeError of the configuration code
    exactly when a required setting is missing or empty; DISCORD_TOKEN is
    looked at first, and the message names the setting found missing,
    whatever the other settings are. *)
Theorem missing_setting_reported env msg :
  Config.load_config unicode_decimal int_max_str_digits env
  = inl (Config.RuntimeError msg)
  <->
  ((Config.getenv env "DISCORD_TOKEN" = None
    \/ Config.getenv env "DISCORD_TOKEN" = Some [])
   /\ msg = of_string "DISCORD_TOKEN not set in environment or .env file")
  \/ ((exists token, Config.getenv env "DISCORD_TOKEN" = Some token
                     /\ token <> [])
      /\ (Config.getenv env "NOTIFY_CHANNEL_ID" = None
          \/ Config.getenv env "NOTIFY_CHANNEL_ID" = Some [])
      /\ msg = of_string "NOTIFY_CHANNEL_ID not set").
Proof.
  unfold Config.load_config. cbv zeta.
  rewrite <- !truthy_false, <- truthy_true.
  destruct (Config.truthy (Config.getenv env "DISCORD_TOKEN")); cbn [negb].
  - destruct (Config.truthy (Config.getenv env "NOTIFY_CHANNEL_ID"));
      cbn [negb].
    + split.
      * destruct (py_int _ _ _); [destruct (py_int _ _ _)|]; discriminate.
      * intros [[[=] _]|(_ & [=] & _)].
    + split.
      * intros [= <-]. right. easy.
      * intros [[[=] _]|(_ & _ & ->)]. reflexivity.
  - split.
    + intros [= <-]. left. easy.
    + intros [[_ ->]|([=] & _)]. reflexivity.
Qed.

(** X18: start-up gets through the configuration exactly when the token is
    set and not empty, NOTIFY_CHANNEL_ID is set and an integer, and
    CHECK_INTERVAL, or "300" in its absence, is an integer; the
    configuration then holds these three values. *)
Theorem load_config_succeeds_iff env cfg :
  Config.load_config unicode_decimal int_max_str_digits env = inr cfg
  <->
  exists token s,
    Config.getenv env "DISCORD_TOKEN" = Some token /\ token <> []
    /\ Config.getenv env "NOTIFY_CHANNEL_ID" = Some s
    /\ py_int unicode_decimal int_max_str_digits s
       = Some (Config.NOTIFY_CHANNEL_ID cfg)
    /\ py_int unicode_decimal int_max_str_digits
         (default (of_string "300") (Config.getenv env "CHECK_INTERVAL"))
       = Some (Config.CHECK_INTERVAL cfg)
    /\ Config.DISCORD_TOKEN cfg = token.
Proof.
  unfold Config.load_config. cbv zeta. split.
  - destruct (Config.getenv env "DISCORD_TOKEN") as [[|c token]|];
      try discriminate.
    destruct (Config.getenv env "NOTIFY_CHANNEL_ID") as [[|d s]|];
      try discriminate.
    cbn [Config.truthy negb]. change (default [] (Some (d :: s))) with (d :: s).
    destruct (py_int _ _ (d :: s)) as [id|] eqn:Hid; [|discriminate].
    destruct (py_int _ _ (default _ _)) as [n|] eqn:Hn; [|discriminate].
    intros [= <-]. exists (c :: token), (d :: s). easy.
  - intros (token & s & Htok & Hne & Hs & Hid & Hn & Hcfg).
    assert (Hsne : s <> []).
    { intros ->. now rewrite int_empty in Hid. }
    rewrite Htok, Hs, (truthy_nonempty token Hne), (truthy_nonempty s Hsne).
    cbn [negb]. change (default [] (Some s)) with s.
    rewrite Hid, Hn. change (default [] (Some token)) with token.
    destruct cfg. simpl in *. now subst.
Qed.

End MoreStartup.

Section BlankSettings.

Variable unicode_decimal : char -> option N.
Variable int_max_str_digits : N.

Lemma to_ascii_decimal_blank s :
  blank s ->
  exists a, to_ascii_decimal unicode_decimal s = Some a
            /\ Forall (fun c => c < 128 /\ is_space c = true) a.
Proof.
  induction 1 as [|c s Hc _ (a & Ha & Hq)]; [now exists []|].
  simpl. rewrite Ha, Hc. destruct (N.ltb_spec c 128).
  - exists (c :: a). split; [reflexivity|]. now constructor.
  - exists (32 :: a). split; [reflexivity|]. now constructor.
Qed.

Lemma skip_ascii_space_blank a :
  Forall (fun c => c < 128 /\ is_space c = true) a ->
  skip_ascii_space a = []
  \/ exists c r, skip_ascii_space a = c :: r /\ 28 <= c <= 31.
Proof.
  induction 1 as [|c a [Hlt Hc] _ IH]; [now left|].
  simpl. destruct (is_ascii_space c) eqn:Hs; [exact IH|].
  right. exists c, a. split; [reflexivity|].
  unfold is_space in Hc. unfold is_ascii_space in Hs. lia.
Qed.

(** [int] refuses text of whitespace only. *)
Lemma py_int_blank s :
  blank s -> py_int unicode_decimal int_max_str_digits s = None.
Proof.
  intros Hb. destruct (to_ascii_decimal_blank s Hb) as (a & Ha & Hq).
  unfold py_int. rewrite Ha.
  destruct (skip_ascii_space_blank a Hq) as [->|(c & r & -> & Hc)];
    [reflexivity|].
  assert (Hcases : c = 28 \/ c = 29 \/ c = 30 \/ c = 31) by lia.
  destruct Hcases as [->|[->|[->| ->]]]; reflexivity.
Qed.

(** X20: a NOTIFY_CHANNEL_ID that is set to whitespace only is not reported
    as not set: start-up stops with the conversion error of [int]. *)
Theorem blank_channel_id_is_conversion_error env token s :
  Config.getenv env "DISCORD_TOKEN" = Some token -> token <> [] ->
  Config.getenv env "NOTIFY_CHANNEL_ID" = Some s -> s <> [] -> blank s ->
  Config.load_config unicode_decimal int_max_str_digits env
  = inl Config.ValueError.
Proof.
  intros Htok Hne Hs Hsne Hb. unfold Config.load_config. cbv zeta.
  rewrite Htok, (truthy_nonempty token Hne), Hs, (truthy_nonempty s Hsne).
  cbn [negb]. change (default [] (Some s)) with s.
  now rewrite (py_int_blank s Hb).
Qed.

End BlankSettings.

(* ===================================================================== *)
(** ** The ready event: properties *)
(* ===================================================================== *)

Section ReadyFacts.

Import Ready.

Lemma on_ready_eq c :
  on_ready c
  = Some {| user := user c; user_id := user_id c;
            monitor_running := true;
            monitor_starts :=
              if monitor_running c then monitor_starts c
              else S (monitor_starts c);
            records :=
              records c
              ++ [(INFO, of_string "Logged in as " ++ user c
                         ++ of_string " (ID: " ++ str_of_Z (user_id c)
                         ++ of_string ")");
                  (INFO, of_string "IP monitor task started.")] |}.
Proof.
  unfold on_ready, start, log_record. simpl.
  destruct c as [u i [] n rs]; simpl; now rewrite <- app_assoc.
Qed.

(** X21: [on_ready] never calls [start] on a running monitor, so the
    RuntimeError of [start] cannot leave it: the handler always returns,
    the monitor runs afterwards and was launched by this call exactly when
    it was not running before.  The record "IP monitor task started." is
    logged either way. *)
Theorem on_ready_guards_start c :
  exists c',
    on_ready c = Some c'
    /\ monitor_running c' = true
    /\ monitor_starts c'
       = (monitor_starts c + if monitor_running c then 0 else 1)%nat
    /\ last (records c') = Some (INFO, of_string "IP monitor task started.").
Proof.
  rewrite on_ready_eq. eexists. split; [reflexivity|]. simpl.
  split; [reflexivity|]. split.
  - destruct (monitor_running c); lia.
  - now rewrite last_app.
Qed.

(** X22: however often the ready event fires (at least once), no handler
    raises and the monitor is launched at most once: once when it was not
    running at the first event, never when it was. *)
Theorem ready_events_launch_once n c :
  exists c',
    ready_events (S n) c = Some c'
    /\ monitor_running c' = true
    /\ monitor_starts c'
       = (monitor_starts c + if monitor_running c then 0 else 1)%nat
    /\ length (records c') = (length (records c) + 2 * S n)%nat.
Proof.
  revert c. induction n as [|n IH]; intros c.
  - cbn [ready_events]. rewrite on_ready_eq. eexists.
    split; [reflexivity|]. simpl. rewrite length_app. simpl.
    destruct (monitor_running c); repeat split; lia.
  - change (ready_events (S (S n)) c)
      with (match on_ready c with
            | Some c' => ready_events (S n) c'
            | None => None
            end).
    rewrite on_ready_eq.
    destruct (IH {| user := user c; user_id := user_id c;
                    monitor_running := true;
                    monitor_starts :=
                      if monitor_running c then monitor_starts c
                      else S (monitor_starts c);
                    records :=
                      records c
                      ++ [(INFO, of_string "Logged in as " ++ user c
                                 ++ of_string " (ID: "
                                 ++ str_of_Z (user_id c) ++ of_string ")");
                          (INFO, of_string "IP monitor task started.")] |})
      as (c' & Hc' & Hrun & Hstarts & Hlen).
    exists c'. split; [exact Hc'|]. split; [exact Hrun|].
    simpl in Hstarts, Hlen. rewrite length_app in Hlen. simpl in Hlen.
    destruct (monitor_running c); split; lia.
Qed.

End ReadyFacts.

(* ===================================================================== *)
(** ** The further properties on sample inputs *)
(* ===================================================================== *)

Lemma fetch_contract_witness :
  fst (fetch_public_ip (fetch_fails (of_string "timeout") (all_fine []))
         (holding ip_old))
  = Returned None.
Proof.
  apply (fetch_contract (fetch_fails (of_string "timeout") (all_fine []))
           (holding ip_old)).
  now exists (of_string "timeout").
Defined.

Lemma fetched_address_is_stripped_witness :
  strip ip_new = ip_new
  /\ (forall c, head ip_new = Some c -> is_space c = false)
  /\ (forall c, last ip_new = Some c -> is_space c = false).
Proof.
  apply (fetched_address_is_stripped
           (all_fine ([32; 32] ++ ip_new ++ [CR; LF])) fresh ip_new).
  reflexivity.
Defined.

Lemma blank_body_is_empty_address_witness :
  fetch_public_ip (all_fine [32; CR; LF]) fresh = (Returned (Some []), fresh).
Proof.
  apply (blank_body_is_empty_address (all_fine [32; CR; LF]) fresh
           [32; CR; LF]).
  - reflexivity.
  - repeat constructor.
Defined.

Lemma loaded_address_is_clean_witness :
  snd (load_last_ip (all_fine []) (holding ([32] ++ ip_old ++ [CR; LF])))
  = holding ([32] ++ ip_old ++ [CR; LF])
  /\ ip_old <> [] /\ strip ip_old = ip_old /\ CR ∉ ip_old.
Proof.
  apply (loaded_address_is_clean (all_fine [])
           (holding ([32] ++ ip_old ++ [CR; LF])) ip_old).
  reflexivity.
Defined.

Lemma blank_file_is_no_state_witness :
  load_last_ip (all_fine []) (holding [LF]) = (Returned None, holding [LF])
  /\ fst (load_last_ip (all_fine []) (holding [LF]))
     = fst (load_last_ip (all_fine []) fresh).
Proof.
  apply (blank_file_is_no_state (all_fine []) (holding [LF]) [LF]).
  - reflexivity.
  - repeat constructor.
  - reflexivity.
Defined.

Lemma load_ignores_surrounding_blanks_witness :
  load_last_ip (all_fine []) (holding ([32; 9] ++ ip_old ++ [CR; LF]))
  = (Returned (Some ip_old), holding ([32; 9] ++ ip_old ++ [CR; LF])).
Proof.
  apply (load_ignores_surrounding_blanks (all_fine [])
           (holding ([32; 9] ++ ip_old ++ [CR; LF])) [32; 9] ip_old [CR; LF]).
  - repeat constructor.
  - repeat constructor.
  - discriminate.
  - reflexivity.
  - compute_done.
  - reflexivity.
  - reflexivity.
Defined.

Lemma save_then_load_strips_witness :
  fst (load_last_ip (all_fine [])
         (snd (save_last_ip Windows ([32] ++ ip_new ++ [LF]) (all_fine [])
                 (holding ip_old))))
  = Returned (Some ip_new).
Proof.
  apply (save_then_load_strips Windows ([32] ++ ip_new ++ [LF]) (all_fine [])
           (all_fine []) (holding ip_old));
    first [reflexivity | compute_done].
Defined.

Lemma file_changes_only_on_detected_change_witness :
  exists body prev,
    http (all_fine ip_new) = HttpText body
    /\ fst (load_last_ip (all_fine ip_new) (holding ip_old)) = Returned prev
    /\ prev <> Some (strip body)
    /\ open_w_ok (all_fine ip_new) = true.
Proof.
  apply (file_changes_only_on_detected_change Posix 1 (all_fine ip_new)
           (holding ip_old)).
  discriminate.
Defined.

Lemma tick_stores_fetched_address_witness :
  fst (load_last_ip (all_fine [])
         (snd (ip_monitor Windows 1 (all_fine (ip_new ++ [LF]))
                 (holding ip_old))))
  = Returned (Some ip_new).
Proof.
  apply (tick_stores_fetched_address Windows 1 (all_fine (ip_new ++ [LF]))
           (all_fine []) (holding ip_old) (ip_new ++ [LF]));
    first [reflexivity | discriminate | compute_done].
Defined.

Lemma unreadable_state_file_left_alone_witness :
  ip_monitor Posix 1
    {| http := HttpText ip_new; read_ok := false; open_w_ok := true;
       write_fault := None; channel_found := true; send_ok := true |}
    (holding ip_old)
  = (Raised StateReadError, holding ip_old).
Proof.
  apply (unreadable_state_file_left_alone Posix 1 _ (holding ip_old) ip_new
           ip_old);
    reflexivity.
Defined.

Lemma state_file_never_removed_witness :
  is_Some (state_file
             (snd (run Posix 1
                     [write_fails 0 (all_fine ip_new);
                      open_fails (all_fine ip_new); all_fine []]
                     (holding ip_old)))).
Proof.
  apply (state_file_never_removed Posix 1). now exists ip_old.
Defined.

Lemma missing_setting_reported_witness :
  Config.load_config ascii_digits_only 4300 Config.env_empty_channel
  = inl (Config.RuntimeError (of_string "NOTIFY_CHANNEL_ID not set")).
Proof.
  apply (missing_setting_reported ascii_digits_only 4300
           Config.env_empty_channel).
  right. split; [|split; [|reflexivity]].
  - exists (of_string "token"). split; [compute_done | discriminate].
  - right. compute_done.
Defined.

Lemma load_config_succeeds_iff_witness :
  Config.load_config ascii_digits_only 4300
    (<["CHECK_INTERVAL" := of_string " 60 "]> Config.env_bad_channel)
  <> inr {| Config.DISCORD_TOKEN := of_string "token";
            Config.NOTIFY_CHANNEL_ID := 7; Config.CHECK_INTERVAL := 60 |}
  /\ Config.load_config ascii_digits_only 4300
       (<["NOTIFY_CHANNEL_ID" := of_string "1234"]> Config.env_bad_channel)
     = inr {| Config.DISCORD_TOKEN := of_string "token";
              Config.NOTIFY_CHANNEL_ID := 1234; Config.CHECK_INTERVAL := 300 |}.
Proof.
  split.
  - intros H.
    apply (load_config_succeeds_iff ascii_digits_only 4300) in H
      as (token & s & _ & _ & Hs & Hid & _).
    vm_compute in Hs. injection Hs as <-. vm_compute in Hid. discriminate.
  - apply (load_config_succeeds_iff ascii_digits_only 4300).
    exists (of_string "token"), (of_string "1234").
    repeat split; first [compute_done | discriminate].
Defined.

Lemma blank_channel_id_is_conversion_error_witness :
  Config.load_config ascii_digits_only 4300
    (<["NOTIFY_CHANNEL_ID" := [32; 0x2003]]> Config.env_bad_channel)
  = inl Config.ValueError.
Proof.
  apply (blank_channel_id_is_conversion_error ascii_digits_only 4300 _
           (of_string "token") [32; 0x2003]).
  - compute_done.
  - discriminate.
  - compute_done.
  - discriminate.
  - repeat constructor.
Defined.
